(** * qb-tracker-sentinel: per-tracker seeding limits

    A shallow embedding of [sentinel.py] and the properties of its policy
    evaluation, idle tracking, tag filter, dispatch and run loop.

    Conventions of the embedding.
    - Python [int] is [Z]; Python [float] (ratios, clock readings) is a
      rational [Q]: the code only compares these values, subtracts two clock
      readings and divides by 60, so finite floats are read as the rationals
      they denote (rounding, infinities and NaN are outside the model).
    - [str] is [string], read as ASCII text.
    - The fields of a policy have the types the dataclass annotations give
      them ([ratio: float], [seeding_minutes: int], [action: str],
      [include_tags: List[str]], ...); the values [from_dict] converts
      ([interval_seconds], [dry_run]) are arbitrary values of the document,
      and an entry of the [trackers] section may be something else than a
      mapping.
    - The qBittorrent Web API client, [urlparse], [time.time] and [logging]
      are the environment: their answers are inputs, their invocations are
      recorded in a trace. *)

From Stdlib Require Import Ascii String QArith Qfield Qround.
From stdpp Require Import gmap strings list fin_maps.

Local Open Scope string_scope.
Local Open Scope list_scope.
Local Open Scope Z_scope.

(** ** Exceptions *)

(** The exception classes the handlers of the program name, with the
    subclass order of [qbittorrentapi]: [LoginFailed] is an
    [APIConnectionError], which is an [APIError]. [TypeError] is what calling
    a dataclass constructor with wrong keywords raises; [OtherError] stands
    for any exception outside the [APIError] family. *)
Inductive exn : Type :=
  | LoginFailed (msg : string)
  | APIConnectionError (msg : string)
  | APIError (msg : string)
  | TypeError
  | OtherError (msg : string).

Definition is_LoginFailed (e : exn) : bool :=
  match e with LoginFailed _ => true | _ => false end.

Definition is_APIConnectionError (e : exn) : bool :=
  match e with LoginFailed _ | APIConnectionError _ => true | _ => false end.

Definition is_APIError (e : exn) : bool :=
  match e with
  | LoginFailed _ | APIConnectionError _ | APIError _ => true
  | _ => false
  end.

(** [str(exc)] *)
Definition exn_str (e : exn) : string :=
  match e with
  | LoginFailed m | APIConnectionError m | APIError m | OtherError m => m
  | TypeError => "TypeError"
  end.

(** The outcome of a computation that may raise. *)
Inductive Res (A : Type) : Type :=
  | Ok (a : A)
  | Raise (e : exn).
Arguments Ok {A} a.
Arguments Raise {A} e.

Definition res_bind {A B} (r : Res A) (k : A -> Res B) : Res B :=
  match r with Ok a => k a | Raise e => Raise e end.

(** ** Strings *)

(** [str.isspace] on one ASCII character. *)
Definition is_space (c : ascii) : bool :=
  let n := Z.of_nat (nat_of_ascii c) in
  ((9 <=? n) && (n <=? 13)) || ((28 <=? n) && (n <=? 32)).

Fixpoint lstrip (s : string) : string :=
  match s with
  | String c s' => if is_space c then lstrip s' else s
  | EmptyString => EmptyString
  end.

Fixpoint rstrip (s : string) : string :=
  match s with
  | String c s' =>
      match rstrip s' with
      | EmptyString => if is_space c then EmptyString else String c EmptyString
      | r => String c r
      end
  | EmptyString => EmptyString
  end.

(** [s.strip()] *)
Definition strip (s : string) : string := rstrip (lstrip s).

(** [s.split(sep)] for a one-character separator: never the empty list. *)
Fixpoint split (sep : ascii) (s : string) : list string :=
  match s with
  | EmptyString => [EmptyString]
  | String c s' =>
      if Ascii.eqb c sep then EmptyString :: split sep s'
      else match split sep s' with
           | x :: r => String c x :: r
           | [] => [String c EmptyString]
           end
  end.

Definition lower_ascii (c : ascii) : ascii :=
  let n := nat_of_ascii c in
  if ((65 <=? n) && (n <=? 90))%nat then ascii_of_nat (n + 32) else c.

Definition upper_ascii (c : ascii) : ascii :=
  let n := nat_of_ascii c in
  if ((97 <=? n) && (n <=? 122))%nat then ascii_of_nat (n - 32) else c.

Fixpoint map_string (f : ascii -> ascii) (s : string) : string :=
  match s with
  | EmptyString => EmptyString
  | String c s' => String (f c) (map_string f s')
  end.

(** [s.lower()] and [s.upper()] *)
Definition lower (s : string) : string := map_string lower_ascii s.
Definition upper (s : string) : string := map_string upper_ascii s.

(** [sep.join(l)] *)
Definition join (sep : string) (l : list string) : string := String.concat sep l.

(** Truth value of a [str]. *)
Definition str_truthy (s : string) : bool :=
  match s with EmptyString => false | _ => true end.

(** ** Policy and configuration *)

(** [@dataclass class Policy] *)
Record Policy : Type := mkPolicy {
  ratio : Q;
  seeding_minutes : Z;
  idle_minutes : Z;
  action : string;
  include_tags : list string;
  exclude_tags : list string
}.

(** A mapping of the configuration document that is passed to [Policy] as
    keyword arguments: each field of the dataclass is present or absent, and
    [kw_unknown] lists the other keys of the mapping. *)
Record PolicyKwargs : Type := mkKwargs {
  kw_ratio : option Q;
  kw_seeding_minutes : option Z;
  kw_idle_minutes : option Z;
  kw_action : option string;
  kw_include_tags : option (list string);
  kw_exclude_tags : option (list string);
  kw_unknown : list string
}.

(** The empty mapping [{}]. *)
Definition kw_empty : PolicyKwargs :=
  mkKwargs None None None None None None [].

(** [Policy] called with the keyword arguments [kw]: the generated [__init__] has three required parameters
    ([ratio], [seeding_minutes], [idle_minutes]), three with defaults, and
    accepts no other keyword. *)
Definition Policy_init (kw : PolicyKwargs) : Res Policy :=
  match kw_unknown kw with
  | _ :: _ => Raise TypeError
  | [] =>
      match kw_ratio kw, kw_seeding_minutes kw, kw_idle_minutes kw with
      | Some r, Some s, Some i =>
          Ok (mkPolicy r s i
                (default "pause" (kw_action kw))
                (default [] (kw_include_tags kw))
                (default [] (kw_exclude_tags kw)))
      | _, _, _ => Raise TypeError
      end
  end.

Definition override {A} (d c : option A) : option A :=
  match c with Some x => Some x | None => d end.

(** The dict merge of [d] and then [c]: the keys of [c] win. *)
Definition kw_merge (d c : PolicyKwargs) : PolicyKwargs :=
  mkKwargs
    (override (kw_ratio d) (kw_ratio c))
    (override (kw_seeding_minutes d) (kw_seeding_minutes c))
    (override (kw_idle_minutes d) (kw_idle_minutes c))
    (override (kw_action d) (kw_action c))
    (override (kw_include_tags d) (kw_include_tags c))
    (override (kw_exclude_tags d) (kw_exclude_tags c))
    (kw_unknown d ++ kw_unknown c).

(** A value of the document: [null], a boolean, an integer, a float, a
    string, or a sequence or mapping, of which only the emptiness is kept. *)
Inductive pyval : Type :=
  | PyNone
  | PyBool (b : bool)
  | PyInt (z : Z)
  | PyFloat (q : Q)
  | PyStr (s : string)
  | PySeq (empty : bool)
  | PyMap (empty : bool).

Definition is_digit (c : ascii) : bool :=
  let n := nat_of_ascii c in ((48 <=? n) && (n <=? 57))%nat.

Definition digit_value (c : ascii) : Z := Z.of_nat (nat_of_ascii c) - 48.

(** The digits of an integer literal: single underscores are allowed
    between two digits only. *)
Fixpoint digits_value (acc : Z) (after_digit : bool) (s : string) : option Z :=
  match s with
  | EmptyString => if after_digit then Some acc else None
  | String c r =>
      if is_digit c then digits_value (10 * acc + digit_value c) true r
      else if Ascii.eqb c "_" then
        if after_digit then digits_value acc false r else None
      else None
  end.

(** [int(s)] for a [str]: white space around, an optional sign, decimal
    digits. *)
Definition int_of_str (s : string) : option Z :=
  match strip s with
  | String "+"%char r => digits_value 0 false r
  | String "-"%char r => Z.opp <$> digits_value 0 false r
  | r => digits_value 0 false r
  end.

(** [int(v)]: a float is truncated towards zero; a string that is not an
    integer literal raises [ValueError], a value that is no number and no
    string raises [TypeError]. *)
Definition py_int (v : pyval) : Res Z :=
  match v with
  | PyInt z => Ok z
  | PyBool b => Ok (if b then 1 else 0)
  | PyFloat q => Ok (if Qle_bool 0 q then Qfloor q else Qceiling q)
  | PyStr s =>
      match int_of_str s with
      | Some z => Ok z
      | None => Raise (OtherError "ValueError")
      end
  | PyNone | PySeq _ | PyMap _ => Raise TypeError
  end.

(** [bool(v)] *)
Definition py_bool (v : pyval) : bool :=
  match v with
  | PyNone => false
  | PyBool b => b
  | PyInt z => negb (z =? 0)
  | PyFloat q => negb (Qeq_bool q 0)
  | PyStr s => str_truthy s
  | PySeq empty | PyMap empty => negb empty
  end.

(** The [policy] section of the document. An entry of [trackers] is a
    mapping, or [None] for any other value ([null], a scalar, a list). *)
Record PolicySection : Type := mkPolicySection {
  sec_default : option PolicyKwargs;
  sec_trackers : option (list (string * option PolicyKwargs))
}.

(** The [runtime] section of the document; [str] is applied to a
    [log_level] that is a [str] already. *)
Record RuntimeSection : Type := mkRuntime {
  rt_interval_seconds : option pyval;
  rt_dry_run : option pyval;
  rt_log_level : option string
}.

(** The document [yaml.safe_load] returns. *)
Record ConfigDoc : Type := mkDoc {
  doc_qbittorrent : option (list (string * string));
  doc_policy : option PolicySection;
  doc_runtime : option RuntimeSection
}.

(** [@dataclass class Config] *)
Record Config : Type := mkConfig {
  qbittorrent : list (string * string);
  default_policy : Policy;
  tracker_policies : gmap string Policy;
  interval_seconds : Z;
  dry_run : bool;
  log_level : string
}.

(** The dict comprehension of [from_dict]: one [Policy] per tracker entry,
    in order; the first entry that raises ends it. Merging an entry that is
    not a mapping raises [TypeError]. *)
Fixpoint build_trackers (dflt : PolicyKwargs)
    (items : list (string * option PolicyKwargs))
    (acc : gmap string Policy) : Res (gmap string Policy) :=
  match items with
  | [] => Ok acc
  | (host, None) :: rest => Raise TypeError
  | (host, Some c) :: rest =>
      res_bind (Policy_init (kw_merge dflt c))
               (fun p => build_trackers dflt rest (<[host := p]> acc))
  end.

(** [Config.from_dict] *)
Definition from_dict (data : ConfigDoc) : Res Config :=
  let qbt := default [] (doc_qbittorrent data) in
  let policy := default (mkPolicySection None None) (doc_policy data) in
  let dflt := default kw_empty (sec_default policy) in
  res_bind (Policy_init dflt) (fun default_policy =>
  res_bind (build_trackers dflt (default [] (sec_trackers policy)) ∅) (fun trackers =>
  let runtime := default (mkRuntime None None None) (doc_runtime data) in
  res_bind (py_int (default (PyInt 60) (rt_interval_seconds runtime))) (fun interval =>
  Ok (mkConfig qbt default_policy trackers
        interval
        (py_bool (default (PyBool true) (rt_dry_run runtime)))
        (default "INFO" (rt_log_level runtime)))))).

(** ** Torrents and the tag filter *)

(** One entry of [client.torrents_info(filter="seeding")], with the
    attributes the program reads. [t_tags] is the comma-separated string the
    API returns. *)
Record Torrent : Type := mkTorrent {
  t_hash : string;
  t_name : string;
  t_tags : string;
  t_ratio : Q;
  t_seeding_time : Z;
  t_uploaded : Z;
  t_upspeed : Z
}.

Definition list_truthy {A} (l : list A) : bool :=
  match l with [] => false | _ => true end.

Definition set_truthy (X : gset string) : bool := bool_decide (X ≠ ∅).

(** [set(tag.strip() for tag in torrent_tags if tag)] *)
Definition tag_set (torrent_tags : list string) : gset string :=
  list_to_set (strip <$> List.filter str_truthy torrent_tags).

(** [s.intersection(l)] *)
Definition intersection (s : gset string) (l : list string) : gset string :=
  s ∩ list_to_set l.

(** [match_tags] *)
Definition match_tags (torrent_tags : list string) (policy : Policy) : bool :=
  let torrent_tags := tag_set torrent_tags in
  if list_truthy (include_tags policy)
     && negb (set_truthy (intersection torrent_tags (include_tags policy)))
  then false
  else if list_truthy (exclude_tags policy)
          && set_truthy (intersection torrent_tags (exclude_tags policy))
  then false
  else true.

(** [t.tags.split(",") if t.tags else []] *)
Definition tag_list (t : Torrent) : list string :=
  if str_truthy (t_tags t) then split "," (t_tags t) else [].

(** ** The environment *)

(** What the outside answers during one cycle. The API calls answer per
    torrent hash; [torrents_trackers] gives the ["url"] of each tracker entry
    ([None] when the key is absent); [urlparse_hostname u] is
    [urlparse(u).hostname]; [time_time] is the reading of [time.time()]. *)
Record World : Type := mkWorld {
  torrents_info : Res (list Torrent);
  torrents_trackers : string -> Res (list (option string));
  torrents_pause : string -> Res unit;
  torrents_delete : bool -> string -> Res unit;
  urlparse_hostname : string -> Res (option string);
  time_time : Q
}.

(** What the program does to the outside, in order. *)
Inductive event : Type :=
  | EvTorrentsInfo
  | EvTrackers (h : string)
  | EvPause (h : string)
  | EvDelete (delete_files : bool) (h : string)
  | EvLogInfo (msg : string)
  | EvLogError (msg : string)
  | EvSleep (secs : Z).

(** The entry [self.state[hash]]: the dict with keys ["uploaded"] and
    ["last_up"]. *)
Record IdleState : Type := mkIdle {
  uploaded : Z;
  last_up : Q
}.

(** The mutable part of a run: [self.state] and the trace of events. *)
Record St : Type := mkSt {
  idle : gmap string IdleState;
  trace : list event
}.

(** The immutable attributes of a [Sentinel]. *)
Record Sentinel : Type := mkSentinel {
  self_cfg : Config;
  self_once : bool;
  self_dry_run : bool
}.

(** [Sentinel.__init__]: the attributes, and the empty [self.state]. *)
Definition Sentinel_init (cfg : Config) (once dry_run_override : bool) : Sentinel :=
  mkSentinel cfg once (dry_run_override || dry_run cfg).

Definition St_init : St := mkSt ∅ [].

(** ** A state and exception monad *)

Definition M (A : Type) : Type := St -> Res A * St.

Definition ret {A} (a : A) : M A := fun s => (Ok a, s).

Definition bind {A B} (m : M A) (k : A -> M B) : M B :=
  fun s => match m s with
           | (Ok a, s') => k a s'
           | (Raise e, s') => (Raise e, s')
           end.

Definition raise {A} (e : exn) : M A := fun s => (Raise e, s).

Definition lift {A} (r : Res A) : M A := fun s => (r, s).

(** [try: m except ...]: the outcome of [m] as a value. *)
Definition try {A} (m : M A) : M (Res A) :=
  fun s => let '(r, s') := m s in (Ok r, s').

Definition emit (ev : event) : M unit :=
  fun s => (Ok tt, mkSt (idle s) (trace s ++ [ev])).

Definition get_idle : M (gmap string IdleState) := fun s => (Ok (idle s), s).

Definition put_idle (m : gmap string IdleState) : M unit :=
  fun s => (Ok tt, mkSt m (trace s)).

Notation "x <- m ;; k" := (bind m (fun x => k))
  (at level 100, m at next level, right associativity).
Notation "m ;;; k" := (bind m (fun _ => k))
  (at level 100, right associativity).

Fixpoint for_each {A} (l : list A) (body : A -> M unit) : M unit :=
  match l with
  | [] => ret tt
  | x :: rest => body x ;;; for_each rest body
  end.

(** ** Tracker host *)

(** [normalize_tracker] *)
Definition normalize_tracker (w : World) (url : option string) : Res (option string) :=
  match url with
  | None => Ok None
  | Some u => if str_truthy u then urlparse_hostname w u else Ok None
  end.

(** The loop of [get_tracker_host]: the first host that is truthy. *)
Fixpoint first_host (w : World) (trackers : list (option string)) : Res (option string) :=
  match trackers with
  | [] => Ok None
  | tr :: rest =>
      res_bind (normalize_tracker w tr) (fun host =>
        match host with
        | Some h => if str_truthy h then Ok (Some h) else first_host w rest
        | None => first_host w rest
        end)
  end.

(** [get_tracker_host] *)
Definition get_tracker_host (w : World) (torrent_hash : string) : M (option string) :=
  emit (EvTrackers torrent_hash) ;;;
  match torrents_trackers w torrent_hash with
  | Raise e => if is_APIError e then ret None else raise e
  | Ok trackers => lift (first_host w trackers)
  end.

(** [self.cfg.tracker_policies.get(tracker_host, self.cfg.default_policy)] *)
Definition policy_for (cfg : Config) (tracker_host : option string) : Policy :=
  match tracker_host with
  | Some h => default (default_policy cfg) (tracker_policies cfg !! h)
  | None => default_policy cfg
  end.

(** ** Rules *)

Definition q_truthy (q : Q) : bool := negb (Qeq_bool q 0).
Definition z_truthy (z : Z) : bool := negb (z =? 0).

(** The ratio and seeding-time checks of [_cycle]. *)
Definition threshold_reasons (policy : Policy) (t : Torrent) : list string :=
  let reasons := [] in
  let reasons :=
    if q_truthy (ratio policy) && Qle_bool (ratio policy) (t_ratio t)
    then reasons ++ ["ratio"] else reasons in
  let reasons :=
    if z_truthy (seeding_minutes policy)
       && (seeding_minutes policy <=? t_seeding_time t / 60)
    then reasons ++ ["seeding_time"] else reasons in
  reasons.

(** [d.setdefault(k, v)]: the entry (the existing one, or [v] after it is
    stored) and the dict. *)
Definition setdefault (k : string) (v : IdleState) (d : gmap string IdleState)
    : IdleState * gmap string IdleState :=
  match d !! k with
  | Some st => (st, d)
  | None => (v, <[k := v]> d)
  end.

(** The idle bookkeeping of [_cycle]: [st] is the entry of [self.state]
    itself, so the two assignments update the dict. *)
Definition idle_step (policy : Policy) (t : Torrent) (now : Q)
    (reasons : list string) (state : gmap string IdleState)
    : list string * gmap string IdleState :=
  let '(st, state) := setdefault (t_hash t) (mkIdle (t_uploaded t) now) state in
  if uploaded st <? t_uploaded t then
    (reasons, <[t_hash t := mkIdle (t_uploaded t) now]> state)
  else if z_truthy (idle_minutes policy)
          && (t_upspeed t =? 0)
          && Qle_bool (inject_Z (idle_minutes policy)) ((now - last_up st) / 60)
  then (reasons ++ ["idle"], state)
  else (reasons, state).

(** The reasons of one torrent and the new [self.state]. *)
Definition evaluate (policy : Policy) (t : Torrent) (now : Q)
    (state : gmap string IdleState) : list string * gmap string IdleState :=
  idle_step policy t now (threshold_reasons policy t) state.

(** ** Dispatch *)

Definition or_dash (tracker_host : option string) : string :=
  match tracker_host with
  | Some h => if str_truthy h then h else "-"
  | None => "-"
  end.

(** The audit line of [_apply_action], from the lower-cased action. *)
Definition audit_msg (torrent : Torrent) (tracker_host : option string)
    (action : string) (reasons : list string) : string :=
  (upper action ++ " | " ++ t_hash torrent ++ " | " ++ t_name torrent ++ " | "
   ++ or_dash tracker_host ++ " | " ++ join "," reasons)%string.

Definition call_pause (w : World) (h : string) : M unit :=
  emit (EvPause h) ;;; lift (torrents_pause w h).

Definition call_delete (w : World) (delete_files : bool) (h : string) : M unit :=
  emit (EvDelete delete_files h) ;;; lift (torrents_delete w delete_files h).

(** [Sentinel._apply_action]. [torrents_delete] without [delete_files] keeps
    the files. *)
Definition _apply_action (self : Sentinel) (w : World) (torrent : Torrent)
    (tracker_host : option string) (action : string) (reasons : list string) : M unit :=
  let action := lower action in
  let msg := audit_msg torrent tracker_host action reasons in
  if self_dry_run self then emit (EvLogInfo ("DRY-RUN: " ++ msg)%string)
  else
    (if String.eqb action "pause" then call_pause w (t_hash torrent)
     else if String.eqb action "remove" then call_delete w false (t_hash torrent)
     else if String.eqb action "remove_data" then call_delete w true (t_hash torrent)
     else ret tt) ;;;
    emit (EvLogInfo msg).

(** ** Cycle and run loop *)

(** The body of the [for] loop of [_cycle]. *)
Definition cycle_body (self : Sentinel) (w : World) (now : Q) (t : Torrent) : M unit :=
  tracker_host <- get_tracker_host w (t_hash t) ;;
  let policy := policy_for (self_cfg self) tracker_host in
  if negb (match_tags (tag_list t) policy) then ret tt
  else
    state <- get_idle ;;
    let '(reasons, state) := evaluate policy t now state in
    put_idle state ;;;
    if list_truthy reasons
    then _apply_action self w t tracker_host (action policy) reasons
    else ret tt.

(** [Sentinel._cycle] *)
Definition _cycle (self : Sentinel) (w : World) : M unit :=
  emit EvTorrentsInfo ;;;
  torrents <- lift (torrents_info w) ;;
  let now := time_time w in
  for_each torrents (cycle_body self w now).

(** How [run] ended on a finite supply of environments: it returned, or it
    is still looping when the supply ends. *)
Inductive run_status : Type := Returned | Looping.

(** [time.sleep(secs)] *)
Definition sleep (secs : Z) : M unit :=
  if secs <? 0 then raise (OtherError "sleep length must be non-negative")
  else emit (EvSleep secs).

(** [Sentinel.run]: each iteration of [while True] meets the next
    environment of [ws]. *)
Fixpoint run (self : Sentinel) (ws : list World) : M run_status :=
  match ws with
  | [] => ret Looping
  | w :: rest =>
      r <- try (_cycle self w) ;;
      match r with
      | Raise e =>
          if is_LoginFailed e then
            emit (EvLogError ("Login failed: " ++ exn_str e)%string) ;;; ret Returned
          else if is_APIConnectionError e then
            emit (EvLogError ("Connection error: " ++ exn_str e)%string) ;;; ret Returned
          else raise e
      | Ok _ =>
          if self_once self then ret Returned
          else sleep (interval_seconds (self_cfg self)) ;;; run self rest
      end
  end.

(** ** Vocabulary of the statements *)

(** The host [get_tracker_host] returns, without the trace. *)
Definition resolve_host (w : World) (torrent_hash : string) : Res (option string) :=
  match torrents_trackers w torrent_hash with
  | Raise e => if is_APIError e then Ok None else Raise e
  | Ok trackers => first_host w trackers
  end.

(** The external call [_apply_action] makes for a lower-cased action, and
    its answer; [None] when the action is none of the three. *)
Definition dispatch_call (w : World) (action : string) (h : string)
    : option (event * Res unit) :=
  if String.eqb action "pause" then Some (EvPause h, torrents_pause w h)
  else if String.eqb action "remove" then Some (EvDelete false h, torrents_delete w false h)
  else if String.eqb action "remove_data" then Some (EvDelete true h, torrents_delete w true h)
  else None.

Definition known_action (action : string) : bool :=
  String.eqb action "pause" || String.eqb action "remove"
  || String.eqb action "remove_data".

(** The pause and delete calls. *)
Definition is_action (ev : event) : bool :=
  match ev with EvPause _ | EvDelete _ _ => true | _ => false end.

(** Appending events to the trace of a state. *)
Definition log_to (s : St) (evs : list event) : St :=
  mkSt (idle s) (trace s ++ evs).

(** The state with a new [self.state] and further events. *)
Definition step_to (s : St) (state : gmap string IdleState) (evs : list event) : St :=
  mkSt state (trace s ++ evs).

(** From [s] to [s'] the trace only grew, and by no pause or delete call. *)
Definition quiet (s s' : St) : Prop :=
  exists evs, trace s' = trace s ++ evs /\ Forall (fun ev => is_action ev = false) evs.

(** The keys a mapping must give for [Policy] to accept it. *)
Definition kw_complete (kw : PolicyKwargs) : Prop :=
  is_Some (kw_ratio kw) /\ is_Some (kw_seeding_minutes kw)
  /\ is_Some (kw_idle_minutes kw).

Definition doc_default (data : ConfigDoc) : PolicyKwargs :=
  default kw_empty (sec_default (default (mkPolicySection None None) (doc_policy data))).

Definition doc_trackers (data : ConfigDoc) : list (string * option PolicyKwargs) :=
  default [] (sec_trackers (default (mkPolicySection None None) (doc_policy data))).


(** Whether the tag filter admits a torrent in a cycle. *)
Definition admitted (self : Sentinel) (w : World) (t : Torrent) : Res bool :=
  res_bind (resolve_host w (t_hash t)) (fun host =>
    Ok (match_tags (tag_list t) (policy_for (self_cfg self) host))).

(** The three conditions of [_cycle], each as one boolean. *)
Definition ratio_fires (policy : Policy) (t : Torrent) : bool :=
  q_truthy (ratio policy) && Qle_bool (ratio policy) (t_ratio t).

Definition seeding_fires (policy : Policy) (t : Torrent) : bool :=
  z_truthy (seeding_minutes policy)
  && (seeding_minutes policy <=? t_seeding_time t / 60).

(** The entry the idle check reads: the stored one, or the one just created
    on the first observation of the hash. *)
Definition entry_read (t : Torrent) (now : Q) (state : gmap string IdleState) : IdleState :=
  default (mkIdle (t_uploaded t) now) (state !! t_hash t).

Definition idle_fires (policy : Policy) (t : Torrent) (now : Q)
    (state : gmap string IdleState) : bool :=
  let st := entry_read t now state in
  negb (uploaded st <? t_uploaded t)
  && (z_truthy (idle_minutes policy) && (t_upspeed t =? 0)
      && Qle_bool (inject_Z (idle_minutes policy)) ((now - last_up st) / 60)).

(** The entry of the hash after the observation. *)
Definition entry_written (t : Torrent) (now : Q) (state : gmap string IdleState) : IdleState :=
  let st := entry_read t now state in
  if uploaded st <? t_uploaded t then mkIdle (t_uploaded t) now else st.

(** Every entry of [m] is still in [m'], with at least as many uploaded
    bytes, and unchanged unless the bytes went up. *)
Definition uploaded_mono (m m' : gmap string IdleState) : Prop :=
  forall h st, m !! h = Some st ->
    exists st', m' !! h = Some st' /\ uploaded st <= uploaded st'
                /\ (uploaded st = uploaded st' -> st' = st).

(** The same, and the timestamp of the last progress has not gone back. *)
Definition progress_mono (m m' : gmap string IdleState) : Prop :=
  forall h st, m !! h = Some st ->
    exists st', m' !! h = Some st' /\ uploaded st <= uploaded st'
                /\ (uploaded st = uploaded st' -> st' = st)
                /\ (last_up st <= last_up st')%Q.

(** No stored timestamp is later than [q]. *)
Definition stamps_upto (m : gmap string IdleState) (q : Q) : Prop :=
  forall h st, m !! h = Some st -> (last_up st <= q)%Q.

(** One observation at time [now] takes [m] to [m']: the uploaded bytes only
    grow, and so do the timestamps when none of [m] is later than [now]. *)
Definition advance (now : Q) (m m' : gmap string IdleState) : Prop :=
  uploaded_mono m m'
  /\ (stamps_upto m now -> progress_mono m m' /\ stamps_upto m' now).


(** ** Concrete data *)

Definition quiet_world (ts : list Torrent) (now : Q) : World :=
  mkWorld (Ok ts) (fun _ => Ok []) (fun _ => Ok tt) (fun _ _ => Ok tt)
          (fun _ => Ok None) now.

(** A world whose pause call is refused. *)
Definition refusing_world (ts : list Torrent) (e : exn) (now : Q) : World :=
  mkWorld (Ok ts) (fun _ => Ok []) (fun _ => Raise e) (fun _ _ => Ok tt)
          (fun _ => Ok None) now.

Definition ex_torrent (h : string) (tags : string) (up : Z) : Torrent :=
  mkTorrent h "linux.iso" tags (5 # 2) 7200 up 0.

Definition ex_policy (a : string) : Policy := mkPolicy 2 0 0 a [] [].

Definition ex_cfg (a : string) : Config :=
  mkConfig [] (ex_policy a) ∅ 60 false "INFO".

Definition idle_only_cfg : Config :=
  mkConfig [] (mkPolicy 0 0 30 "pause" [] []) ∅ 60 true "INFO".


(** [policy: {default: {ratio: 2, seeding_minutes: 0, idle_minutes: 0,
    action: a}}, runtime: {dry_run: false}] *)
Definition doc_with_action (a : string) : ConfigDoc :=
  mkDoc None
    (Some (mkPolicySection
             (Some (mkKwargs (Some 2%Q) (Some 0) (Some 0) (Some a) None None [])) None))
    (Some (mkRuntime None (Some (PyBool false)) None)).

(** ** Further definitions of the program *)

(** A value handed to [qbittorrentapi.Client]: a value of the configuration,
    or a one-key dict around one. *)
Inductive client_arg : Type :=
  | Scalar (v : string)
  | Nested (key : string) (v : client_arg).

(** [dict(items)]: a later item replaces an earlier one with the same key. *)
Definition dict_of_items {V} (items : list (string * V)) : gmap string V :=
  foldl (fun d kv => <[kv.1 := kv.2]> d) ∅ items.

(** The keyword arguments [Sentinel.__init__] builds for the client:
    [verify_ssl] is renamed, [timeout] is wrapped into [REQUESTS_ARGS]. *)
Definition client_params (cfg : Config) : gmap string client_arg :=
  let client_params := dict_of_items (prod_map id Scalar <$> qbittorrent cfg) in
  let client_params :=
    match client_params !! "verify_ssl" with
    | Some v => <["VERIFY_WEBUI_CERTIFICATE" := v]> (delete "verify_ssl" client_params)
    | None => client_params
    end in
  let client_params :=
    match client_params !! "timeout" with
    | Some v => <["REQUESTS_ARGS" := Nested "timeout" v]> (delete "timeout" client_params)
    | None => client_params
    end in
  client_params.

(** ** Further vocabulary *)

(** A tracker entry the loop of [get_tracker_host] passes over: no url, an
    empty url, or a url without a host name. *)
Definition skipped (w : World) (tr : option string) : Prop :=
  normalize_tracker w tr = Ok None \/ normalize_tracker w tr = Ok (Some "").

(** The world with another answer to the tracker request. *)
Definition with_trackers (w : World) (f : string -> Res (list (option string))) : World :=
  mkWorld (torrents_info w) f (torrents_pause w) (torrents_delete w)
          (urlparse_hostname w) (time_time w).

(** The policies of a configuration. *)
Definition policy_of (cfg : Config) (p : Policy) : Prop :=
  p = default_policy cfg \/ exists h, tracker_policies cfg !! h = Some p.

(** The calls a sentinel may make, given its policies: none in dry-run, and
    each kind only if some policy asks for it. *)
Definition permitted (self : Sentinel) (ev : event) : Prop :=
  match ev with
  | EvPause _ =>
      self_dry_run self = false
      /\ exists p, policy_of (self_cfg self) p /\ lower (action p) = "pause"
  | EvDelete false _ =>
      self_dry_run self = false
      /\ exists p, policy_of (self_cfg self) p /\ lower (action p) = "remove"
  | EvDelete true _ =>
      self_dry_run self = false
      /\ exists p, policy_of (self_cfg self) p /\ lower (action p) = "remove_data"
  | _ => True
  end.

(** The torrent hash a call is about. *)
Definition target (ev : event) : option string :=
  match ev with
  | EvPause h | EvDelete _ h => Some h
  | _ => None
  end.

(** [d[new] = f(d.pop(old))] when [old] is a key of [d]. *)
Definition pop_into {V} (old new : string) (f : V -> V) (d : gmap string V)
    : gmap string V :=
  match d !! old with
  | Some v => <[new := f v]> (delete old d)
  | None => d
  end.

(** The audit lines among some events. *)
Definition is_audit (ev : event) : bool :=
  match ev with EvLogInfo _ => true | _ => false end.

Definition audit_lines (evs : list event) : nat := length (List.filter is_audit evs).

(** From [s] to [s'] the trace grew by events that all satisfy [P]. *)
Definition extends (P : event -> Prop) (s s' : St) : Prop :=
  exists evs, trace s' = trace s ++ evs /\ Forall P evs.

(** What the loop body may emit for the torrent [t]: a call is about [t]
    and permitted; no list request, no sleep, no error line. *)
Definition body_event (self : Sentinel) (t : Torrent) (ev : event) : Prop :=
  (forall h, target ev = Some h -> h = t_hash t)
  /\ permitted self ev
  /\ match ev with
     | EvTorrentsInfo | EvSleep _ | EvLogError _ => False
     | _ => True
     end.

(** The same for some torrent of a list. *)
Definition cycle_event (self : Sentinel) (ts : list Torrent) (ev : event) : Prop :=
  exists t, t ∈ ts /\ body_event self t ev.

(** An url parser and a world for the examples of the tracker lookup. *)
Definition ex_parser (u : string) : Res (option string) :=
  if String.eqb u "udp://" then Ok None
  else if String.eqb u "http://[bad" then Raise (OtherError "Invalid IPv6 URL")
  else Ok (Some "tracker.example.org").

Definition ex_tracker_world (trs : Res (list (option string))) : World :=
  mkWorld (Ok []) (fun _ => trs) (fun _ => Ok tt) (fun _ _ => Ok tt) ex_parser 0.

(** [policy: {default: {ratio: 2, seeding_minutes: 0, idle_minutes: 30,
    include_tags: [tv]}, trackers: {tracker.example.org: {ratio: 1, action:
    remove}}}] *)
Definition doc_with_tracker : ConfigDoc :=
  mkDoc None
    (Some (mkPolicySection
             (Some (mkKwargs (Some 2%Q) (Some 0) (Some 30) None (Some ["tv"]) None []))
             (Some [("tracker.example.org",
                     Some (mkKwargs (Some 1%Q) None None (Some "remove") None None []))])))
    None.

(** The configuration [doc_with_tracker] loads to. *)
Definition cfg_with_tracker : Config :=
  mkConfig [] (mkPolicy 2 0 30 "pause" ["tv"] [])
    {[ "tracker.example.org" := mkPolicy 1 0 30 "remove" ["tv"] [] ]}
    60 true "INFO".

(** [policy: {default: {ratio: 2, seeding_minutes: 0, idle_minutes: 0}},
    runtime: {interval_seconds: "1m"}] *)
Definition doc_bad_interval : ConfigDoc :=
  mkDoc None
    (Some (mkPolicySection
             (Some (mkKwargs (Some 2%Q) (Some 0) (Some 0) None None None [])) None))
    (Some (mkRuntime (Some (PyStr "1m")) None None)).

(** [policy: {default: {ratio: 2, seeding_minutes: 0, idle_minutes: 0},
    trackers: {tracker.example.org: null}}] *)
Definition doc_null_tracker : ConfigDoc :=
  mkDoc None
    (Some (mkPolicySection
             (Some (mkKwargs (Some 2%Q) (Some 0) (Some 0) None None None []))
             (Some [("tracker.example.org", None)])))
    None.

(** * Properties *)

(** ** Loading the configuration *)

Lemma Policy_init_Ok kw :
  kw_unknown kw = [] -> kw_complete kw ->
  exists r s i, kw_ratio kw = Some r /\ kw_seeding_minutes kw = Some s
    /\ kw_idle_minutes kw = Some i
    /\ Policy_init kw =
         Ok (mkPolicy r s i (default "pause" (kw_action kw))
               (default [] (kw_include_tags kw)) (default [] (kw_exclude_tags kw))).
Proof.
  intros Hu ([r Hr] & [s Hs] & [i Hi]). exists r, s, i.
  unfold Policy_init. rewrite Hu, Hr, Hs, Hi. auto.
Qed.




(** Complete thresholds are not enough to load: [int] refuses an
    [interval_seconds] that is no integer literal, and a tracker entry that
    is not a mapping cannot be merged. *)
Example from_dict_conversion_failures :
  from_dict doc_bad_interval = Raise (OtherError "ValueError")
  /\ from_dict doc_null_tracker = Raise TypeError.
Proof. split; reflexivity. Qed.



(** ** The monadic code, step by step *)

Lemma log_to_log_to s evs evs' :
  log_to (log_to s evs) evs' = log_to s (evs ++ evs').
Proof. unfold log_to. simpl. by rewrite app_assoc. Qed.

Lemma step_to_log_to s state evs evs' :
  log_to (step_to s state evs) evs' = step_to s state (evs ++ evs').
Proof. unfold log_to, step_to. simpl. by rewrite app_assoc. Qed.

Lemma log_to_nil s : log_to s [] = s.
Proof. destruct s. unfold log_to. simpl. by rewrite app_nil_r. Qed.

Lemma emit_spec ev s : emit ev s = (Ok tt, log_to s [ev]).
Proof. reflexivity. Qed.

Lemma get_tracker_host_spec w h s :
  get_tracker_host w h s = (resolve_host w h, log_to s [EvTrackers h]).
Proof.
  unfold get_tracker_host, resolve_host, bind. rewrite emit_spec.
  destruct (torrents_trackers w h) as [trs|e]; [reflexivity|].
  destruct (is_APIError e); reflexivity.
Qed.

Lemma for_each_app {A} (l1 l2 : list A) body s :
  for_each (l1 ++ l2) body s =
  match for_each l1 body s with
  | (Ok _, s1) => for_each l2 body s1
  | (Raise e, s1) => (Raise e, s1)
  end.
Proof.
  revert s. induction l1 as [|x l1 IH]; intros s; simpl; [reflexivity|].
  unfold bind. destruct (body x s) as [[[]|e] s1]; [apply IH|reflexivity].
Qed.

(** Dispatch in dry-run mode: one log line, nothing else. *)
Lemma apply_action_dry self w t host a reasons s :
  self_dry_run self = true ->
  _apply_action self w t host a reasons s =
  (Ok tt, log_to s [EvLogInfo ("DRY-RUN: " ++ audit_msg t host (lower a) reasons)%string]).
Proof. intros H. unfold _apply_action. rewrite H. reflexivity. Qed.

(** Dispatch outside dry-run: the call of the action if it is a known one,
    then the log line unless the call raised. *)
Lemma apply_action_live self w t host a reasons s :
  self_dry_run self = false ->
  _apply_action self w t host a reasons s =
  match dispatch_call w (lower a) (t_hash t) with
  | None => (Ok tt, log_to s [EvLogInfo (audit_msg t host (lower a) reasons)])
  | Some (ev, Ok _) =>
      (Ok tt, log_to s [ev; EvLogInfo (audit_msg t host (lower a) reasons)])
  | Some (ev, Raise e) => (Raise e, log_to s [ev])
  end.
Proof.
  intros H. unfold _apply_action, dispatch_call. rewrite H.
  unfold call_pause, call_delete, bind, lift, emit, log_to. simpl.
  destruct (String.eqb (lower a) "pause").
  { destruct (torrents_pause w (t_hash t)) as [[]|e]; [|reflexivity].
    simpl. by rewrite <- app_assoc. }
  destruct (String.eqb (lower a) "remove").
  { destruct (torrents_delete w false (t_hash t)) as [[]|e]; [|reflexivity].
    simpl. by rewrite <- app_assoc. }
  destruct (String.eqb (lower a) "remove_data").
  { destruct (torrents_delete w true (t_hash t)) as [[]|e]; [|reflexivity].
    simpl. by rewrite <- app_assoc. }
  reflexivity.
Qed.

(** One pass of the loop body. *)
Lemma cycle_body_spec self w now t s :
  cycle_body self w now t s =
  match resolve_host w (t_hash t) with
  | Raise e => (Raise e, log_to s [EvTrackers (t_hash t)])
  | Ok host =>
      let policy := policy_for (self_cfg self) host in
      if match_tags (tag_list t) policy then
        let '(reasons, state) := evaluate policy t now (idle s) in
        if list_truthy reasons
        then _apply_action self w t host (action policy) reasons
               (step_to s state [EvTrackers (t_hash t)])
        else (Ok tt, step_to s state [EvTrackers (t_hash t)])
      else (Ok tt, log_to s [EvTrackers (t_hash t)])
  end.
Proof.
  unfold cycle_body, bind at 1. rewrite get_tracker_host_spec.
  destruct (resolve_host w (t_hash t)) as [host|e]; [|reflexivity].
  cbv zeta. destruct (match_tags _ _); simpl; [|reflexivity].
  unfold bind, get_idle, put_idle. simpl.
  destruct (evaluate _ t now (idle s)) as [reasons state]. simpl.
  destruct (list_truthy reasons); reflexivity.
Qed.

Lemma cycle_spec self w s :
  _cycle self w s =
  match torrents_info w with
  | Ok torrents =>
      for_each torrents (cycle_body self w (time_time w)) (log_to s [EvTorrentsInfo])
  | Raise e => (Raise e, log_to s [EvTorrentsInfo])
  end.
Proof.
  unfold _cycle, bind, lift. rewrite emit_spec.
  destruct (torrents_info w); reflexivity.
Qed.

(** What [run] does with the outcome of its first cycle. *)
Lemma run_cons self w ws s :
  run self (w :: ws) s =
  match _cycle self w s with
  | (Raise e, s1) =>
      if is_LoginFailed e then
        (Ok Returned, log_to s1 [EvLogError ("Login failed: " ++ exn_str e)%string])
      else if is_APIConnectionError e then
        (Ok Returned, log_to s1 [EvLogError ("Connection error: " ++ exn_str e)%string])
      else (Raise e, s1)
  | (Ok _, s1) =>
      if self_once self then (Ok Returned, s1)
      else if interval_seconds (self_cfg self) <? 0
      then (Raise (OtherError "sleep length must be non-negative"), s1)
      else run self ws (log_to s1 [EvSleep (interval_seconds (self_cfg self))])
  end.
Proof.
  simpl. unfold bind at 1. unfold try.
  destruct (_cycle self w s) as [[[]|e] s1].
  - destruct (self_once self); [reflexivity|].
    unfold bind, sleep. destruct (_ <? 0); reflexivity.
  - destruct (is_LoginFailed e); [reflexivity|].
    destruct (is_APIConnectionError e); reflexivity.
Qed.

(** ** Unknown actions *)

Lemma dispatch_call_unknown w a h :
  known_action a = false -> dispatch_call w a h = None.
Proof.
  unfold known_action, dispatch_call.
  destruct (String.eqb a "pause"), (String.eqb a "remove"),
    (String.eqb a "remove_data"); simpl; congruence.
Qed.

(** C2, as the code has it: an action string that is none of [pause],
    [remove], [remove_data] (compared after lower-casing) raises no error
    when the configuration is loaded, the policy keeps it; dispatch then
    meets it and, outside dry-run, makes no external call, raises nothing and
    logs the audit line. *)
Theorem unknown_action_reaches_dispatch (a : string) :
  known_action (lower a) = false ->
  (forall kw, kw_action kw = Some a -> kw_unknown kw = [] -> kw_complete kw ->
     exists p, Policy_init kw = Ok p /\ action p = a)
  /\ (forall self w t host reasons s, self_dry_run self = false ->
        _apply_action self w t host a reasons s =
        (Ok tt, log_to s [EvLogInfo (audit_msg t host (lower a) reasons)])).
Proof.
  intros Hk. split.
  - intros kw Ha Hu Hc.
    destruct (Policy_init_Ok kw Hu Hc) as (r & s & i & _ & _ & _ & E).
    eexists. split; [exact E|]. simpl. by rewrite Ha.
  - intros self w t host reasons s Hd.
    rewrite apply_action_live by done. by rewrite dispatch_call_unknown.
Qed.

(** The statement at the action ["delete"]. *)
Lemma unknown_action_reaches_dispatch_witness :
  (exists p, Policy_init (doc_default (doc_with_action "delete")) = Ok p
             /\ action p = "delete")
  /\ _apply_action (Sentinel_init (ex_cfg "delete") true false)
       (quiet_world [] 0) (ex_torrent "aa" "" 1000) None "delete" ["ratio"] St_init
     = (Ok tt, log_to St_init [EvLogInfo "DELETE | aa | linux.iso | - | ratio"]).
Proof.
  split.
  - apply (proj1 (unknown_action_reaches_dispatch "delete" eq_refl)).
    + reflexivity.
    + reflexivity.
    + repeat split; simpl; eauto.
  - apply (proj2 (unknown_action_reaches_dispatch "delete" eq_refl)). reflexivity.
Defined.

(** C2, as the specification states it, fails: the document with the action
    ["delete"] loads without error, and a cycle outside dry-run hands that
    action to dispatch, which logs it as done. *)
Lemma unknown_action_not_rejected :
  known_action "delete" = false
  /\ exists cfg,
       from_dict (doc_with_action "delete") = Ok cfg
       /\ action (default_policy cfg) = "delete"
       /\ run (Sentinel_init cfg true false)
            [quiet_world [ex_torrent "aa" "" 1000] 0] St_init
          = (Ok Returned,
             mkSt {[ "aa" := mkIdle 1000 0 ]}
                  [EvTorrentsInfo; EvTrackers "aa";
                   EvLogInfo "DELETE | aa | linux.iso | - | ratio"]).
Proof.
  split; [reflexivity|]. eexists. split; [reflexivity|].
  split; [reflexivity|]. vm_compute. reflexivity.
Qed.

(** ** Dry-run *)

Lemma quiet_refl s : quiet s s.
Proof. exists []. split; [by rewrite app_nil_r|constructor]. Qed.

Lemma quiet_trans s1 s2 s3 : quiet s1 s2 -> quiet s2 s3 -> quiet s1 s3.
Proof.
  intros (e1 & H1 & F1) (e2 & H2 & F2). exists (e1 ++ e2). split.
  - by rewrite H2, H1, app_assoc.
  - by apply Forall_app.
Qed.

Lemma quiet_step_to s state evs :
  Forall (fun ev => is_action ev = false) evs -> quiet s (step_to s state evs).
Proof. intros H. by exists evs. Qed.

Lemma quiet_log_to s evs :
  Forall (fun ev => is_action ev = false) evs -> quiet s (log_to s evs).
Proof. intros H. by exists evs. Qed.

Create HintDb quiet.
#[local] Hint Resolve quiet_refl quiet_step_to quiet_log_to : quiet.
#[local] Hint Extern 1 (Forall _ _) => repeat constructor : quiet.

Lemma cycle_body_quiet self w now t s r s' :
  self_dry_run self = true ->
  cycle_body self w now t s = (r, s') -> quiet s s'.
Proof.
  intros Hd. rewrite cycle_body_spec.
  destruct (resolve_host w (t_hash t)) as [host|e].
  - cbv zeta. destruct (match_tags _ _).
    + destruct (evaluate _ t now (idle s)) as [reasons state].
      destruct (list_truthy reasons).
      * rewrite apply_action_dry, step_to_log_to by done.
        intros [= _ <-]. auto with quiet.
      * intros [= _ <-]. auto with quiet.
    + intros [= _ <-]. auto with quiet.
  - intros [= _ <-]. auto with quiet.
Qed.

Lemma for_each_quiet {A} (body : A -> M unit) l :
  (forall x s r s', body x s = (r, s') -> quiet s s') ->
  forall s r s', for_each l body s = (r, s') -> quiet s s'.
Proof.
  intros Hb. induction l as [|x l IH]; intros s r s'; simpl.
  - intros [= _ <-]. apply quiet_refl.
  - unfold bind. destruct (body x s) as [[[]|e] s1] eqn:E.
    + intros H. eapply quiet_trans; [eapply Hb, E|eapply IH, H].
    + intros [= _ <-]. eapply Hb, E.
Qed.

Lemma cycle_quiet self w s r s' :
  self_dry_run self = true -> _cycle self w s = (r, s') -> quiet s s'.
Proof.
  intros Hd. rewrite cycle_spec. destruct (torrents_info w) as [ts|e].
  - intros H. eapply quiet_trans; [|eapply for_each_quiet, H].
    + auto with quiet.
    + intros x s0 r0 s0'. by apply cycle_body_quiet.
  - intros [= _ <-]. auto with quiet.
Qed.

Lemma run_quiet self ws :
  self_dry_run self = true ->
  forall s r s', run self ws s = (r, s') -> quiet s s'.
Proof.
  intros Hd. induction ws as [|w ws IH]; intros s r s'.
  - simpl. intros [= _ <-]. apply quiet_refl.
  - rewrite run_cons. destruct (_cycle self w s) as [[[]|e] s1] eqn:E;
      apply cycle_quiet in E; try done.
    + destruct (self_once self); [by intros [= _ <-]|].
      destruct (_ <? 0); [by intros [= _ <-]|].
      intros H. apply IH in H. eapply quiet_trans; [exact E|].
      eapply quiet_trans; [|exact H]. auto with quiet.
    + destruct (is_LoginFailed e).
      { intros [= _ <-]. eapply quiet_trans; [exact E|auto with quiet]. }
      destruct (is_APIConnectionError e).
      { intros [= _ <-]. eapply quiet_trans; [exact E|auto with quiet]. }
      by intros [= _ <-].
Qed.

(** C7: when dry-run is in effect, by the configuration or by the
    [--dry-run] override, dispatch makes no pause or delete call for any
    torrent, action and reasons: it returns after the single log line
    prefixed [DRY-RUN: ], leaving [self.state] as it is; and no run, of any
    number of cycles, adds a pause or delete call to the trace. *)
Theorem dry_run_makes_no_call cfg once dry_run_override :
  dry_run_override = true \/ dry_run cfg = true ->
  (forall w t host a reasons s,
     _apply_action (Sentinel_init cfg once dry_run_override) w t host a reasons s =
     (Ok tt,
      mkSt (idle s)
        (trace s ++ [EvLogInfo ("DRY-RUN: " ++ audit_msg t host (lower a) reasons)%string])))
  /\ (forall ws s r s',
        run (Sentinel_init cfg once dry_run_override) ws s = (r, s') ->
        exists evs, trace s' = trace s ++ evs
                    /\ Forall (fun ev => is_action ev = false) evs).
Proof.
  intros H.
  assert (Hd : self_dry_run (Sentinel_init cfg once dry_run_override) = true).
  { simpl. destruct H as [-> | ->]; [reflexivity|apply orb_true_r]. }
  split.
  - intros. by rewrite apply_action_dry.
  - intros ws s r s' Hr. by apply (run_quiet _ ws Hd s r s').
Qed.

(** The statement with the override set, for a [remove_data] policy. *)
Lemma dry_run_makes_no_call_witness :
  _apply_action (Sentinel_init (ex_cfg "remove_data") true true)
    (quiet_world [] 0) (ex_torrent "aa" "" 1000) None "remove_data" ["ratio"] St_init
  = (Ok tt, mkSt ∅ [EvLogInfo "DRY-RUN: REMOVE_DATA | aa | linux.iso | - | ratio"]).
Proof.
  apply (proj1 (dry_run_makes_no_call (ex_cfg "remove_data") true true
                  (or_introl eq_refl))).
Defined.

(** ** A failing pause or delete call *)

(** C3, as the code has it: when the pause or delete call of a torrent
    raises, [_apply_action] logs nothing and the exception leaves [_cycle]:
    the state is the one reached at the failing call and the torrents after
    it are not processed. [run] then ends: it logs the exception and returns
    if it is a login or connection error, and lets any other exception
    through. *)
Theorem dispatch_failure_aborts_cycle
    self w ws ts1 t ts2 host reasons state' ev e s s1 :
  self_dry_run self = false ->
  torrents_info w = Ok (ts1 ++ t :: ts2) ->
  for_each ts1 (cycle_body self w (time_time w)) (log_to s [EvTorrentsInfo]) = (Ok tt, s1) ->
  resolve_host w (t_hash t) = Ok host ->
  match_tags (tag_list t) (policy_for (self_cfg self) host) = true ->
  evaluate (policy_for (self_cfg self) host) t (time_time w) (idle s1) = (reasons, state') ->
  reasons <> [] ->
  dispatch_call w (lower (action (policy_for (self_cfg self) host))) (t_hash t)
    = Some (ev, Raise e) ->
  let s2 := step_to s1 state' [EvTrackers (t_hash t); ev] in
  _cycle self w s = (Raise e, s2)
  /\ run self (w :: ws) s =
     if is_LoginFailed e then
       (Ok Returned, log_to s2 [EvLogError ("Login failed: " ++ exn_str e)%string])
     else if is_APIConnectionError e then
       (Ok Returned, log_to s2 [EvLogError ("Connection error: " ++ exn_str e)%string])
     else (Raise e, s2).
Proof.
  intros Hd Hts H1 Hh Hm Hev Hne Hc s2.
  assert (E : _cycle self w s = (Raise e, s2)).
  { rewrite cycle_spec, Hts, for_each_app, H1. simpl. unfold bind.
    rewrite cycle_body_spec, Hh. cbv zeta. rewrite Hm, Hev.
    destruct reasons as [|r0 reasons]; [done|]. simpl.
    rewrite apply_action_live, Hc by done. by rewrite step_to_log_to. }
  split; [exact E|]. by rewrite run_cons, E.
Qed.

(** The statement at a cycle of two torrents whose first pause call is
    refused with a connection error. *)
Lemma dispatch_failure_aborts_cycle_witness :
  let self := Sentinel_init (ex_cfg "pause") false false in
  let e := APIConnectionError "Conflict" in
  let w := refusing_world [ex_torrent "aa" "" 1000; ex_torrent "bb" "" 500] e 0 in
  let s2 := mkSt {[ "aa" := mkIdle 1000 0 ]} [EvTorrentsInfo; EvTrackers "aa"; EvPause "aa"] in
  _cycle self w St_init = (Raise e, s2)
  /\ run self [w; w] St_init
     = (Ok Returned, log_to s2 [EvLogError "Connection error: Conflict"]).
Proof.
  intros self e w s2.
  apply (dispatch_failure_aborts_cycle self w [w] []
           (ex_torrent "aa" "" 1000) [ex_torrent "bb" "" 500] None ["ratio"]
           {[ "aa" := mkIdle 1000 0 ]} (EvPause "aa") e St_init
           (log_to St_init [EvTorrentsInfo])).
  - reflexivity.
  - reflexivity.
  - reflexivity.
  - reflexivity.
  - reflexivity.
  - vm_compute. reflexivity.
  - discriminate.
  - reflexivity.
Defined.

(** C3, as the specification states it, fails: the pause call of the first
    torrent is refused; the cycle ends with that exception, without a log
    line, and the second torrent is not evaluated (no tracker lookup, no
    entry in [self.state], no dispatch), although it would have been paused
    had the first call succeeded. *)
Lemma dispatch_failure_skips_the_rest :
  let self := Sentinel_init (ex_cfg "pause") false false in
  let e := APIConnectionError "Conflict" in
  let ts := [ex_torrent "aa" "" 1000; ex_torrent "bb" "" 500] in
  (exists s', _cycle self (refusing_world ts e 0) St_init = (Raise e, s')
              /\ trace s' = [EvTorrentsInfo; EvTrackers "aa"; EvPause "aa"]
              /\ idle s' !! "bb" = None)
  /\ (exists s', _cycle self (quiet_world ts 0) St_init = (Ok tt, s')
                 /\ EvPause "bb" ∈ trace s'
                 /\ is_Some (idle s' !! "bb")).
Proof.
  intros self e ts. split.
  - eexists. split; [vm_compute; reflexivity|]. split; reflexivity.
  - eexists. split; [vm_compute; reflexivity|]. split.
    + simpl. set_solver.
    + eexists. vm_compute. reflexivity.
Qed.

(** ** The reasons of one torrent *)

(** The reasons are the fired checks, in the order of the code. *)
Lemma evaluate_reasons policy t now state :
  (evaluate policy t now state).1 =
  (if ratio_fires policy t then ["ratio"] else [])
  ++ (if seeding_fires policy t then ["seeding_time"] else [])
  ++ (if idle_fires policy t now state then ["idle"] else []).
Proof.
  unfold evaluate, idle_step, threshold_reasons, setdefault, idle_fires, entry_read.
  fold (ratio_fires policy t). fold (seeding_fires policy t).
  destruct (state !! t_hash t) as [st|]; simpl;
    [destruct (uploaded st <? t_uploaded t)|rewrite Z.ltb_irrefl]; simpl;
    destruct (ratio_fires policy t), (seeding_fires policy t); simpl;
    try reflexivity;
    match goal with |- context [if ?c then _ else _] => destruct c end;
    reflexivity.
Qed.

(** The new [self.state]: the entry of the hash is written, the others are
    kept. *)
Lemma evaluate_state policy t now state :
  (evaluate policy t now state).2 = <[t_hash t := entry_written t now state]> state.
Proof.
  unfold evaluate, idle_step, setdefault, entry_written, entry_read.
  destruct (state !! t_hash t) as [st|] eqn:E; simpl.
  - destruct (uploaded st <? t_uploaded t); simpl; [reflexivity|].
    rewrite insert_id by done.
    match goal with |- context [if ?c then _ else _] => destruct c end; reflexivity.
  - rewrite Z.ltb_irrefl. simpl.
    match goal with |- context [if ?c then _ else _] => destruct c end; reflexivity.
Qed.

Ltac case_fires :=
  rewrite evaluate_reasons;
  destruct (ratio_fires _ _), (seeding_fires _ _), (idle_fires _ _ _ _); simpl.

Ltac not_in_reasons :=
  let H := fresh in
  intros H;
  repeat (apply elem_of_cons in H as [H|H]; [discriminate H|]);
  by apply elem_of_nil in H.

Lemma ratio_zero_disables policy t :
  (ratio policy == 0)%Q -> ratio_fires policy t = false.
Proof.
  intros H. unfold ratio_fires, q_truthy.
  apply Qeq_bool_iff in H. by rewrite H.
Qed.

Lemma seeding_zero_disables policy t :
  seeding_minutes policy = 0 -> seeding_fires policy t = false.
Proof. intros H. unfold seeding_fires, z_truthy. by rewrite H. Qed.

Lemma idle_zero_disables policy t now state :
  idle_minutes policy = 0 -> idle_fires policy t now state = false.
Proof.
  intros H. unfold idle_fires, z_truthy. rewrite H. simpl.
  apply andb_false_r.
Qed.

(** C4, as the code has it: a threshold equal to 0 disables its rule, for
    every torrent, clock reading and idle state; with the three thresholds at
    0 the reason list is empty, and the loop body dispatches nothing: after
    the tracker lookup it emits no event. *)
Theorem zero_threshold_disables policy t now state :
  ((ratio policy == 0)%Q -> "ratio" ∉ (evaluate policy t now state).1)
  /\ (seeding_minutes policy = 0 -> "seeding_time" ∉ (evaluate policy t now state).1)
  /\ (idle_minutes policy = 0 -> "idle" ∉ (evaluate policy t now state).1)
  /\ ((ratio policy == 0)%Q -> seeding_minutes policy = 0 -> idle_minutes policy = 0 ->
      (evaluate policy t now state).1 = []
      /\ forall self w host s,
           resolve_host w (t_hash t) = Ok host ->
           policy_for (self_cfg self) host = policy ->
           idle s = state ->
           exists state',
             cycle_body self w now t s = (Ok tt, step_to s state' [EvTrackers (t_hash t)])).
Proof.
  split; [|split; [|split]].
  - intros H. rewrite evaluate_reasons, ratio_zero_disables by done.
    destruct (seeding_fires _ _), (idle_fires _ _ _ _); simpl; not_in_reasons.
  - intros H. rewrite evaluate_reasons, seeding_zero_disables by done.
    destruct (ratio_fires _ _), (idle_fires _ _ _ _); simpl; not_in_reasons.
  - intros H. rewrite evaluate_reasons, idle_zero_disables by done.
    destruct (ratio_fires _ _), (seeding_fires _ _); simpl; not_in_reasons.
  - intros Hr Hs Hi.
    assert (E : (evaluate policy t now state).1 = []).
    { by rewrite evaluate_reasons, ratio_zero_disables, seeding_zero_disables,
        idle_zero_disables. }
    split; [exact E|].
    intros self w host s Hh Hp <-. rewrite cycle_body_spec, Hh. cbv zeta. rewrite Hp.
    destruct (match_tags _ _).
    + destruct (evaluate policy t now (idle s)) as [reasons state'].
      simpl in E. subst reasons. simpl. eauto.
    + exists (idle s). reflexivity.
Qed.

(** The statement at the policy with the three thresholds at 0. *)
Lemma zero_threshold_disables_witness :
  (evaluate (mkPolicy 0 0 0 "remove" [] []) (ex_torrent "aa" "" 1000) 0 ∅).1 = [].
Proof.
  apply (proj1 (proj2 (proj2 (proj2
           (zero_threshold_disables (mkPolicy 0 0 0 "remove" [] [])
              (ex_torrent "aa" "" 1000) 0 ∅))) (Qeq_refl 0) eq_refl eq_refl)).
Defined.

(** C4, as the specification states it, fails for negative thresholds: with
    the three thresholds at -1 a fresh torrent without any upload or seeding
    time triggers on all three rules, and is paused. *)
Lemma negative_threshold_fires :
  let policy := mkPolicy (-1) (-1) (-1) "pause" [] [] in
  let t := mkTorrent "aa" "linux.iso" "" 0 0 0 0 in
  (ratio policy <= 0)%Q /\ seeding_minutes policy <= 0 /\ idle_minutes policy <= 0
  /\ (evaluate policy t 0 ∅).1 = ["ratio"; "seeding_time"; "idle"]
  /\ _cycle (Sentinel_init (mkConfig [] policy ∅ 60 false "INFO") true false)
       (quiet_world [t] 0) St_init
     = (Ok tt,
        mkSt {[ "aa" := mkIdle 0 0 ]}
          [EvTorrentsInfo; EvTrackers "aa"; EvPause "aa";
           EvLogInfo "PAUSE | aa | linux.iso | - | ratio,seeding_time,idle"]).
Proof.
  intros policy t. split; [by vm_compute|]. split; [by vm_compute|].
  split; [by vm_compute|]. split; vm_compute; reflexivity.
Qed.

(** ** The first observation *)

Lemma idle_fires_first policy t now state :
  state !! t_hash t = None -> 0 < idle_minutes policy ->
  idle_fires policy t now state = false.
Proof.
  intros Hn Hpos. unfold idle_fires, entry_read. rewrite Hn. simpl.
  rewrite Z.ltb_irrefl. simpl.
  destruct (Qle_bool _ _) eqn:E; [|by rewrite andb_false_r].
  apply Qle_bool_iff in E.
  assert (Hz : ((now - now) / 60 == inject_Z 0)%Q) by (unfold Qdiv; ring).
  rewrite Hz in E. rewrite <- Zle_Qle in E. lia.
Qed.

(** C5: on the first observation of a hash (no entry in [self.state]) the
    reason ["idle"] is not produced, whatever the uploaded bytes, the upload
    speed, the clock reading and the positive [idle_minutes] of the policy. *)
Theorem first_observation_not_idle policy t now state :
  state !! t_hash t = None ->
  0 < idle_minutes policy ->
  "idle" ∉ (evaluate policy t now state).1.
Proof.
  intros Hn Hpos. rewrite evaluate_reasons, idle_fires_first by done.
  destruct (ratio_fires _ _), (seeding_fires _ _); simpl; not_in_reasons.
Qed.

(** The statement at a first observation with 30 idle minutes. *)
Lemma first_observation_not_idle_witness :
  "idle" ∉ (evaluate (mkPolicy 0 0 30 "pause" [] []) (ex_torrent "aa" "" 1000) 5 ∅).1.
Proof.
  apply (first_observation_not_idle (mkPolicy 0 0 30 "pause" [] [])
           (ex_torrent "aa" "" 1000) 5 ∅).
  - reflexivity.
  - simpl. lia.
Defined.

(** ** The order of the reasons *)

(** C6: the reason list of any torrent, policy, clock reading and idle state
    is a subsequence of [["ratio"; "seeding_time"; "idle"]] without
    repetition: the reasons keep that order and none appears twice. *)
Theorem reasons_in_fixed_order policy t now state :
  sublist (evaluate policy t now state).1 ["ratio"; "seeding_time"; "idle"]
  /\ NoDup (evaluate policy t now state).1.
Proof.
  case_fires; (split;
    [repeat first [apply sublist_nil | apply sublist_skip | apply sublist_cons]
    |repeat (apply NoDup_cons; split; [not_in_reasons|]); apply NoDup_nil_2]).
Qed.

(** ** The tag filter *)

Lemma set_truthy_empty_l (l : list string) : set_truthy (intersection ∅ l) = false.
Proof.
  unfold set_truthy, intersection. apply bool_decide_eq_false.
  intros H. apply H. apply (left_absorb_L ∅ (∩)).
Qed.

Lemma tag_list_no_tags t : t_tags t = "" -> tag_list t = [].
Proof. intros H. unfold tag_list. by rewrite H. Qed.

(** C9: a policy with a non-empty [include_tags] rejects every torrent whose
    set of tags is empty; in particular every torrent whose tag string is
    empty. *)
Theorem include_tags_reject_untagged policy :
  include_tags policy <> [] ->
  (forall torrent_tags, tag_set torrent_tags = ∅ ->
     match_tags torrent_tags policy = false)
  /\ (forall t, t_tags t = "" -> match_tags (tag_list t) policy = false).
Proof.
  intros Hne.
  assert (H : forall torrent_tags, tag_set torrent_tags = ∅ ->
                match_tags torrent_tags policy = false).
  { intros tags He. unfold match_tags. rewrite He, set_truthy_empty_l.
    destruct (include_tags policy); [done|reflexivity]. }
  split; [exact H|].
  intros t Ht. apply H. by rewrite tag_list_no_tags.
Qed.

(** The statement at a torrent without tags and [include_tags: [tv]]. *)
Lemma include_tags_reject_untagged_witness :
  match_tags (tag_list (ex_torrent "aa" "" 1000)) (mkPolicy 2 0 0 "pause" ["tv"] []) = false.
Proof.
  apply (proj2 (include_tags_reject_untagged (mkPolicy 2 0 0 "pause" ["tv"] [])
                  ltac:(discriminate))).
  reflexivity.
Defined.

(** ** Torrents the filter rejects *)

Lemma apply_action_idle self w t host a reasons s r s' :
  _apply_action self w t host a reasons s = (r, s') -> idle s' = idle s.
Proof.
  destruct (self_dry_run self) eqn:Hd.
  - rewrite apply_action_dry by done. by intros [= _ <-].
  - rewrite apply_action_live by done.
    destruct (dispatch_call _ _ _) as [[ev [[]|e]]|]; by intros [= _ <-].
Qed.

(** What one pass of the loop body does to [self.state]. *)
Lemma cycle_body_idle self w now t s r s' :
  cycle_body self w now t s = (r, s') ->
  idle s' = idle s
  \/ (admitted self w t = Ok true
      /\ idle s' = <[t_hash t := entry_written t now (idle s)]> (idle s)).
Proof.
  rewrite cycle_body_spec. unfold admitted.
  destruct (resolve_host w (t_hash t)) as [host|e]; simpl.
  - destruct (match_tags _ _); [|intros [= _ <-]; by left].
    pose proof (evaluate_state (policy_for (self_cfg self) host) t now (idle s)) as E.
    destruct (evaluate _ t now (idle s)) as [reasons state]. simpl in E.
    destruct (list_truthy reasons).
    + intros H%apply_action_idle. right. by rewrite H, <- E.
    + intros [= _ <-]. right. by rewrite <- E.
  - intros [= _ <-]. by left.
Qed.

Lemma for_each_idle_frame self w now h ts :
  (forall t, t ∈ ts -> t_hash t = h -> admitted self w t = Ok false) ->
  forall s r s', for_each ts (cycle_body self w now) s = (r, s') ->
                 idle s' !! h = idle s !! h.
Proof.
  induction ts as [|t ts IH]; intros Hrej s r s'; simpl.
  - by intros [= _ <-].
  - unfold bind. destruct (cycle_body self w now t s) as [r1 s1] eqn:E.
    assert (H1 : idle s1 !! h = idle s !! h).
    { apply cycle_body_idle in E as [->|[Ha ->]]; [done|].
      destruct (decide (t_hash t = h)) as [Heq|Hneq].
      - rewrite (Hrej t) in Ha; [discriminate|set_solver|done].
      - by rewrite lookup_insert_ne. }
    destruct r1 as [[]|e].
    + intros H. rewrite <- H1. eapply IH; [|exact H].
      intros t' Hin. apply Hrej. set_solver.
    + by intros [= _ <-].
Qed.

(** C8: for a torrent the tag filter rejects, the loop body stops after the
    tracker lookup: [self.state] is the same map (no entry created, none
    modified), no rule is evaluated, nothing is dispatched or logged. And
    over a whole cycle, the entry of a hash whose torrents are all rejected
    is as before the cycle. *)
Theorem rejected_torrent_untouched self w now t host s :
  resolve_host w (t_hash t) = Ok host ->
  match_tags (tag_list t) (policy_for (self_cfg self) host) = false ->
  cycle_body self w now t s
  = (Ok tt, mkSt (idle s) (trace s ++ [EvTrackers (t_hash t)]))
  /\ (forall ts r s',
        t ∈ ts ->
        (forall t', t' ∈ ts -> t_hash t' = t_hash t -> admitted self w t' = Ok false) ->
        torrents_info w = Ok ts ->
        _cycle self w s = (r, s') ->
        idle s' !! t_hash t = idle s !! t_hash t).
Proof.
  intros Hh Hm. split.
  - rewrite cycle_body_spec, Hh. cbv zeta. by rewrite Hm.
  - intros ts r s' _ Hrej Hts. rewrite cycle_spec, Hts. intros H.
    by apply (for_each_idle_frame self w (time_time w) (t_hash t) ts Hrej) in H.
Qed.

(** The statement at a torrent tagged [movies] and [include_tags: [tv]]. *)
Lemma rejected_torrent_untouched_witness :
  let self := Sentinel_init (mkConfig [] (mkPolicy 2 0 0 "pause" ["tv"] []) ∅ 60 false "INFO")
                true false in
  let t := ex_torrent "aa" "movies" 1000 in
  cycle_body self (quiet_world [t] 0) 0 t St_init
  = (Ok tt, mkSt ∅ [EvTrackers "aa"]).
Proof.
  intros self t.
  apply (proj1 (rejected_torrent_untouched self (quiet_world [t] 0) 0 t None St_init
                  eq_refl eq_refl)).
Defined.

(** ** The idle state over time *)


Lemma advance_refl now m : advance now m m.
Proof.
  split; [|intros Hs; split; [|exact Hs]];
    intros h st Hl; exists st; repeat split; auto; try lia; apply Qle_refl.
Qed.

Lemma uploaded_mono_trans m1 m2 m3 :
  uploaded_mono m1 m2 -> uploaded_mono m2 m3 -> uploaded_mono m1 m3.
Proof.
  intros H12 H23 h st Hl.
  destruct (H12 h st Hl) as (st2 & Hl2 & Hle2 & He2).
  destruct (H23 h st2 Hl2) as (st3 & Hl3 & Hle3 & He3).
  exists st3. split; [done|]. split; [lia|].
  intros He. rewrite He3 by lia. apply He2. lia.
Qed.

Lemma progress_mono_trans m1 m2 m3 :
  progress_mono m1 m2 -> progress_mono m2 m3 -> progress_mono m1 m3.
Proof.
  intros H12 H23 h st Hl.
  destruct (H12 h st Hl) as (st2 & Hl2 & Hle2 & He2 & Hq2).
  destruct (H23 h st2 Hl2) as (st3 & Hl3 & Hle3 & He3 & Hq3).
  exists st3. split; [done|]. split; [lia|]. split.
  - intros He. rewrite He3 by lia. apply He2. lia.
  - eapply Qle_trans; eassumption.
Qed.

Lemma advance_trans now m1 m2 m3 :
  advance now m1 m2 -> advance now m2 m3 -> advance now m1 m3.
Proof.
  intros [U12 P12] [U23 P23]. split; [by eapply uploaded_mono_trans|].
  intros Hs. destruct (P12 Hs) as [Hp12 Hs2]. destruct (P23 Hs2) as [Hp23 Hs3].
  split; [by eapply progress_mono_trans|done].
Qed.

(** The write of one observation. *)
Lemma observation_advance t now m :
  advance now m (<[t_hash t := entry_written t now m]> m).
Proof.
  assert (Hw : forall st, m !! t_hash t = Some st ->
            entry_written t now m
            = if uploaded st <? t_uploaded t then mkIdle (t_uploaded t) now else st).
  { intros st Hl. unfold entry_written, entry_read. by rewrite Hl. }
  split; [|intros Hs; split].
  - intros h st Hl. destruct (decide (t_hash t = h)) as [<-|Hne].
    + rewrite lookup_insert_eq, (Hw st Hl). eexists. split; [reflexivity|].
      destruct (Z.ltb_spec (uploaded st) (t_uploaded t)); simpl; split; auto; lia.
    + rewrite lookup_insert_ne by done. exists st. auto with lia.
  - intros h st Hl. destruct (decide (t_hash t = h)) as [<-|Hne].
    + rewrite lookup_insert_eq, (Hw st Hl). eexists. split; [reflexivity|].
      destruct (Z.ltb_spec (uploaded st) (t_uploaded t)); simpl.
      * split; [lia|]. split; [lia|]. by eapply Hs.
      * split; [lia|]. split; [done|]. apply Qle_refl.
    + rewrite lookup_insert_ne by done. exists st.
      split; [done|]. split; [lia|]. split; [done|]. apply Qle_refl.
  - intros h st. destruct (decide (t_hash t = h)) as [<-|Hne].
    + rewrite lookup_insert_eq. intros [= <-].
      unfold entry_written, entry_read.
      destruct (m !! t_hash t) as [st0|] eqn:Hl; simpl.
      * destruct (uploaded st0 <? t_uploaded t); simpl;
          [apply Qle_refl|by eapply Hs].
      * rewrite Z.ltb_irrefl. simpl. apply Qle_refl.
    + rewrite lookup_insert_ne by done. apply Hs.
Qed.

Lemma cycle_body_advance self w now t s r s' :
  cycle_body self w now t s = (r, s') -> advance now (idle s) (idle s').
Proof.
  intros [->|[_ ->]]%cycle_body_idle;
    [apply advance_refl|apply observation_advance].
Qed.

Lemma for_each_advance self w now ts :
  forall s r s', for_each ts (cycle_body self w now) s = (r, s') ->
                 advance now (idle s) (idle s').
Proof.
  induction ts as [|t ts IH]; intros s r s'; simpl.
  - intros [= _ <-]. apply advance_refl.
  - unfold bind. destruct (cycle_body self w now t s) as [[[]|e] s1] eqn:E;
      apply cycle_body_advance in E.
    + intros H%IH. by eapply advance_trans.
    + by intros [= _ <-].
Qed.







(** ** Scenarios *)

(** A ratio of 2.5 against a threshold of 2.0 triggers on ["ratio"] alone. *)
Example scenario_ratio :
  (evaluate (mkPolicy 2 0 0 "pause" [] [])
     (mkTorrent "aa" "linux.iso" "" (5 # 2) 0 0 0) 0 ∅).1 = ["ratio"].
Proof. reflexivity. Qed.

(** No progress and no upload speed for 31 minutes against 30 idle minutes. *)
Example scenario_idle :
  (evaluate (mkPolicy 0 0 30 "pause" [] [])
     (mkTorrent "aa" "linux.iso" "" 0 0 1000 0) 1860
     {[ "aa" := mkIdle 1000 0 ]}).1 = ["idle"].
Proof. vm_compute. reflexivity. Qed.

(** Progress at minute 15 restarts the idle clock: 16 idle minutes at
    minute 31. *)
Example scenario_progress_resets :
  evaluate (mkPolicy 0 0 30 "pause" [] [])
    (mkTorrent "aa" "linux.iso" "" 0 0 1500 0) 900 {[ "aa" := mkIdle 1000 0 ]}
  = ([], {[ "aa" := mkIdle 1500 900 ]})
  /\ (evaluate (mkPolicy 0 0 30 "pause" [] [])
        (mkTorrent "aa" "linux.iso" "" 0 0 1500 0) 1860
        {[ "aa" := mkIdle 1500 900 ]}).1 = [].
Proof. split; vm_compute; reflexivity. Qed.

(** Tags are split on commas and stripped before they are compared. *)
Example scenario_tags :
  match_tags (tag_list (ex_torrent "aa" "movies, tv" 0)) (mkPolicy 2 0 0 "pause" ["tv"] []) = true
  /\ match_tags (tag_list (ex_torrent "aa" "movies" 0)) (mkPolicy 2 0 0 "pause" ["tv"] []) = false
  /\ match_tags (tag_list (ex_torrent "aa" "movies, tv" 0)) (mkPolicy 2 0 0 "pause" [] ["tv"]) = false.
Proof. repeat split; vm_compute; reflexivity. Qed.

(** * Further properties *)

(** ** The tracker host *)

Lemma str_truthy_true s : str_truthy s = true <-> s <> "".
Proof. destruct s; simpl; split; congruence. Qed.

Lemma first_host_skip w pre rest :
  Forall (skipped w) pre -> first_host w (pre ++ rest) = first_host w rest.
Proof.
  induction 1 as [|tr pre [H|H] _ IH]; simpl; [done| |]; by rewrite H.
Qed.

Lemma first_host_Some_inv w trs h :
  first_host w trs = Ok (Some h) ->
  h <> "" /\ exists pre tr post,
    trs = pre ++ tr :: post /\ Forall (skipped w) pre
    /\ normalize_tracker w tr = Ok (Some h).
Proof.
  induction trs as [|tr trs IH]; simpl; [discriminate|].
  destruct (normalize_tracker w tr) as [[h0|]|e] eqn:E; simpl; [| |discriminate].
  - destruct (str_truthy h0) eqn:T.
    + intros [= <-]. split; [by apply str_truthy_true|].
      exists [], tr, trs. auto.
    + intros (Hne & pre & tr' & post & -> & Hs & Hn)%IH. split; [done|].
      exists (tr :: pre), tr', post. split; [done|]. split; [|done].
      constructor; [|done]. right. destruct h0; [done|discriminate].
  - intros (Hne & pre & tr' & post & -> & Hs & Hn)%IH. split; [done|].
    exists (tr :: pre), tr', post. split; [done|]. split; [|done].
    constructor; [by left|done].
Qed.

Lemma first_host_None_inv w trs :
  first_host w trs = Ok None -> Forall (skipped w) trs.
Proof.
  induction trs as [|tr trs IH]; simpl; [constructor|].
  destruct (normalize_tracker w tr) as [[h0|]|e] eqn:E; simpl; [| |discriminate].
  - destruct (str_truthy h0) eqn:T; [discriminate|].
    intros H. constructor; [|by apply IH]. right. destruct h0; [done|discriminate].
  - intros H. constructor; [by left|by apply IH].
Qed.

(** X1: the host of a torrent is the host name of its first tracker entry
    that has a non-empty url with a non-empty host name; the entries before
    it are passed over, and when every entry is passed over there is no
    host. *)
Theorem first_host_is_first w trs :
  (forall h, first_host w trs = Ok (Some h) <->
     h <> "" /\ exists pre tr post,
       trs = pre ++ tr :: post /\ Forall (skipped w) pre
       /\ normalize_tracker w tr = Ok (Some h))
  /\ (first_host w trs = Ok None <-> Forall (skipped w) trs).
Proof.
  split; [intros h|]; split.
  - apply first_host_Some_inv.
  - intros (Hne & pre & tr & post & -> & Hs & Hn).
    rewrite first_host_skip by done. simpl. rewrite Hn. simpl.
    apply str_truthy_true in Hne. by rewrite Hne.
  - apply first_host_None_inv.
  - intros H. rewrite <- (app_nil_r trs). by rewrite first_host_skip.
Qed.

(** The statement at a list with a missing url, an empty url and a url
    without host before the first good entry. *)
Lemma first_host_is_first_witness :
  first_host (ex_tracker_world (Ok []))
    [None; Some ""; Some "udp://"; Some "http://tracker.example.org/announce";
     Some "http://[bad"]
  = Ok (Some "tracker.example.org").
Proof.
  apply (proj2 (proj1 (first_host_is_first (ex_tracker_world (Ok [])) _) _)).
  split; [discriminate|].
  exists [None; Some ""; Some "udp://"], (Some "http://tracker.example.org/announce"),
    [Some "http://[bad"].
  split; [reflexivity|]. split; [|reflexivity].
  repeat constructor; by left.
Defined.

Lemma cycle_body_with_trackers self w f now t s :
  resolve_host (with_trackers w f) (t_hash t) = resolve_host w (t_hash t) ->
  cycle_body self (with_trackers w f) now t s = cycle_body self w now t s.
Proof.
  intros H. rewrite !cycle_body_spec, H.
  destruct (resolve_host w (t_hash t)) as [host|e]; [|reflexivity].
  cbv zeta. destruct (match_tags _ _); [|reflexivity].
  destruct (evaluate _ t now (idle s)) as [reasons state].
  destruct (list_truthy reasons); [|reflexivity].
  destruct (self_dry_run self) eqn:Hd.
  - by rewrite !apply_action_dry.
  - by rewrite !apply_action_live.
Qed.

(** X2: when the tracker request of a torrent fails with an [APIError] (of
    any subclass), the torrent has no host and falls under the default
    policy, and the loop body goes on exactly as if the torrent had no
    tracker at all. *)
Theorem tracker_lookup_failure_is_soft self w now t s e :
  torrents_trackers w (t_hash t) = Raise e ->
  is_APIError e = true ->
  get_tracker_host w (t_hash t) s = (Ok None, log_to s [EvTrackers (t_hash t)])
  /\ policy_for (self_cfg self) None = default_policy (self_cfg self)
  /\ cycle_body self w now t s
     = cycle_body self (with_trackers w (fun _ => Ok [])) now t s.
Proof.
  intros He Ha. split; [|split].
  - rewrite get_tracker_host_spec. unfold resolve_host. by rewrite He, Ha.
  - reflexivity.
  - symmetry. apply cycle_body_with_trackers.
    unfold resolve_host. simpl. by rewrite He, Ha.
Qed.

(** The statement at a refused login during the tracker request. *)
Lemma tracker_lookup_failure_is_soft_witness :
  get_tracker_host (ex_tracker_world (Raise (LoginFailed "403"))) "aa" St_init
  = (Ok None, log_to St_init [EvTrackers "aa"]).
Proof.
  apply (proj1 (tracker_lookup_failure_is_soft
                  (Sentinel_init (ex_cfg "pause") true false)
                  (ex_tracker_world (Raise (LoginFailed "403"))) 0
                  (ex_torrent "aa" "" 1000) St_init (LoginFailed "403")
                  eq_refl eq_refl)).
Defined.

(** X3: an exception of the tracker lookup that is not an [APIError] (from
    the request or from [urlparse]) is not caught: it ends the cycle at that
    torrent, the later torrents are not processed, and [run] lets it
    through. *)
Theorem tracker_lookup_crash_aborts self w ws ts1 t ts2 e s s1 :
  torrents_info w = Ok (ts1 ++ t :: ts2) ->
  for_each ts1 (cycle_body self w (time_time w)) (log_to s [EvTorrentsInfo]) = (Ok tt, s1) ->
  resolve_host w (t_hash t) = Raise e ->
  is_APIError e = false ->
  _cycle self w s = (Raise e, log_to s1 [EvTrackers (t_hash t)])
  /\ run self (w :: ws) s = (Raise e, log_to s1 [EvTrackers (t_hash t)]).
Proof.
  intros Hts H1 Hr Ha.
  assert (E : _cycle self w s = (Raise e, log_to s1 [EvTrackers (t_hash t)])).
  { rewrite cycle_spec, Hts, for_each_app, H1. simpl. unfold bind.
    by rewrite cycle_body_spec, Hr. }
  split; [done|]. rewrite run_cons, E.
  assert (is_LoginFailed e = false) as -> by (by destruct e).
  assert (is_APIConnectionError e = false) as -> by (by destruct e).
  reflexivity.
Qed.

(** The statement at a tracker url [urlparse] refuses. *)
Lemma tracker_lookup_crash_aborts_witness :
  _cycle (Sentinel_init (ex_cfg "pause") false false)
    (mkWorld (Ok [ex_torrent "aa" "" 1000; ex_torrent "bb" "" 500])
       (fun _ => Ok [Some "http://[bad"]) (fun _ => Ok tt) (fun _ _ => Ok tt)
       ex_parser 0)
    St_init
  = (Raise (OtherError "Invalid IPv6 URL"),
     log_to (log_to St_init [EvTorrentsInfo]) [EvTrackers "aa"]).
Proof.
  apply (proj1 (tracker_lookup_crash_aborts
                  (Sentinel_init (ex_cfg "pause") false false)
                  (mkWorld (Ok [ex_torrent "aa" "" 1000; ex_torrent "bb" "" 500])
                     (fun _ => Ok [Some "http://[bad"]) (fun _ => Ok tt)
                     (fun _ _ => Ok tt) ex_parser 0)
                  [] [] (ex_torrent "aa" "" 1000) [ex_torrent "bb" "" 500]
                  (OtherError "Invalid IPv6 URL") St_init
                  (log_to St_init [EvTorrentsInfo])
                  eq_refl eq_refl eq_refl eq_refl)).
Defined.

(** ** The tag filter, in full *)

Lemma elem_of_tag_set x torrent_tags :
  x ∈ tag_set torrent_tags <->
  exists raw, raw ∈ torrent_tags /\ raw <> "" /\ x = strip raw.
Proof.
  unfold tag_set. rewrite elem_of_list_to_set, list_elem_of_fmap. split.
  - intros (raw & -> & Hin). apply list_elem_of_In, filter_In in Hin as [Hin Ht].
    exists raw. split; [by apply list_elem_of_In|]. split; [|done].
    by apply str_truthy_true.
  - intros (raw & Hin & Hne & ->). exists raw. split; [done|].
    apply list_elem_of_In, filter_In. split; [by apply list_elem_of_In|].
    by apply str_truthy_true.
Qed.

Lemma set_truthy_intersection (X : gset string) l :
  set_truthy (intersection X l) = true <-> exists x, x ∈ l /\ x ∈ X.
Proof.
  unfold set_truthy, intersection. rewrite bool_decide_eq_true. split.
  - intros (x & [H1 H2%elem_of_list_to_set]%elem_of_intersection)%set_choose_L.
    eauto.
  - intros (x & H1 & H2) He.
    assert (H : x ∈ X ∩ list_to_set l).
    { apply elem_of_intersection. split; [done|by apply elem_of_list_to_set]. }
    rewrite He in H. by apply not_elem_of_empty in H.
Qed.

(** The filter, as a condition on the two tag lists. *)
Lemma match_tags_admits torrent_tags policy :
  match_tags torrent_tags policy = true <->
  (include_tags policy = []
   \/ exists x, x ∈ include_tags policy /\ x ∈ tag_set torrent_tags)
  /\ (forall x, x ∈ exclude_tags policy -> x ∉ tag_set torrent_tags).
Proof.
  unfold match_tags.
  destruct (set_truthy (intersection (tag_set torrent_tags) (include_tags policy)))
    eqn:Hi;
  destruct (set_truthy (intersection (tag_set torrent_tags) (exclude_tags policy)))
    eqn:He.
  all: try (apply set_truthy_intersection in Hi).
  all: try (apply set_truthy_intersection in He).
  all: rewrite ?andb_false_r, ?andb_true_r; simpl.
  - destruct He as (x & Hx1 & Hx2).
    destruct (exclude_tags policy) as [|y ex] eqn:Ex; [by apply elem_of_nil in Hx1|].
    simpl. split; [discriminate|]. intros [_ H]. by destruct (H x).
  - split; [intros _|done]. split; [by right|].
    intros x Hx Hx'. assert (H : set_truthy (intersection (tag_set torrent_tags)
                                               (exclude_tags policy)) = true).
    { apply set_truthy_intersection. eauto. }
    congruence.
  - destruct He as (x & Hx1 & Hx2).
    destruct (exclude_tags policy) as [|y ex] eqn:Ex; [by apply elem_of_nil in Hx1|].
    destruct (include_tags policy); simpl;
      (split; [discriminate|]); intros [_ H]; by destruct (H x).
  - destruct (include_tags policy) as [|y inc] eqn:Inc; simpl.
    + split; [intros _|done]. split; [by left|].
      intros x Hx Hx'. assert (H : set_truthy (intersection (tag_set torrent_tags)
                                                 (exclude_tags policy)) = true).
      { apply set_truthy_intersection. eauto. }
      congruence.
    + split; [discriminate|]. intros [[H|H] _]; [discriminate|].
      assert (H' : set_truthy (intersection (tag_set torrent_tags) (y :: inc)) = true).
      { by apply set_truthy_intersection. }
      congruence.
Qed.

(** X4: the tag filter admits a torrent exactly when it has one of the
    [include_tags] (or there are none) and none of the [exclude_tags]; the
    tags of the torrent are the non-empty pieces of its tag list, stripped.
    An excluded tag rejects the torrent whatever it includes. *)
Theorem match_tags_iff torrent_tags policy :
  match_tags torrent_tags policy = true <->
  (include_tags policy = []
   \/ exists x, x ∈ include_tags policy /\ x ∈ tag_set torrent_tags)
  /\ (forall x, x ∈ exclude_tags policy -> x ∉ tag_set torrent_tags).
Proof. apply match_tags_admits. Qed.

(** The statement at a torrent tagged [movies, tv] under a policy that
    includes [tv] and excludes [anime]. *)
Lemma match_tags_iff_witness :
  match_tags ["movies"; " tv"] (mkPolicy 2 0 0 "pause" ["tv"] ["anime"]) = true.
Proof.
  apply (proj2 (match_tags_iff ["movies"; " tv"]
                  (mkPolicy 2 0 0 "pause" ["tv"] ["anime"]))).
  split.
  - right. exists "tv". split; [by apply list_elem_of_singleton|].
    apply elem_of_tag_set. exists " tv". split; [|by split].
    apply elem_of_cons. right. by apply list_elem_of_singleton.
  - intros x ->%list_elem_of_singleton H. vm_compute in H. discriminate H.
Defined.

(** [strip] leaves nothing to strip. *)
Lemma lstrip_head s : match lstrip s with
                      | String c _ => is_space c = false
                      | EmptyString => True
                      end.
Proof.
  induction s as [|c s IH]; simpl; [done|].
  destruct (is_space c) eqn:E; [done|]. exact E.
Qed.

Lemma rstrip_rstrip s : rstrip (rstrip s) = rstrip s.
Proof.
  induction s as [|c s IH]; simpl; [done|].
  destruct (rstrip s) as [|c' r] eqn:E.
  - destruct (is_space c) eqn:Ec; simpl; [done|]. by rewrite Ec.
  - simpl in IH. simpl. by rewrite IH.
Qed.

Lemma rstrip_head c s :
  is_space c = false -> exists r, rstrip (String c s) = String c r.
Proof.
  intros Hc. simpl. destruct (rstrip s); [|eauto].
  rewrite Hc. eauto.
Qed.

Lemma strip_strip s : strip (strip s) = strip s.
Proof.
  unfold strip. pose proof (lstrip_head s) as H.
  destruct (lstrip s) as [|c u] eqn:E; [done|].
  destruct (rstrip_head c u H) as [r Hr]. rewrite Hr.
  simpl lstrip. rewrite H. rewrite <- Hr. apply rstrip_rstrip.
Qed.

(** X5: the tags of the policy are compared as written, those of the
    torrent after stripping: an [include_tags] entry with leading or
    trailing white space is matched by no torrent, so a policy that
    includes only such entries rejects every torrent. *)
Theorem unstripped_include_matches_nothing policy torrent_tags :
  include_tags policy <> [] ->
  Forall (fun x => strip x <> x) (include_tags policy) ->
  match_tags torrent_tags policy = false.
Proof.
  intros Hne Hall.
  destruct (match_tags torrent_tags policy) eqn:E; [|done].
  apply match_tags_admits in E as [[H|(x & Hx & Hin)] _]; [done|].
  apply elem_of_tag_set in Hin as (raw & _ & _ & ->).
  rewrite Forall_forall in Hall. destruct (Hall _ Hx). apply strip_strip.
Qed.

(** The statement at [include_tags: [" tv"]] and a torrent tagged [tv]. *)
Lemma unstripped_include_matches_nothing_witness :
  match_tags ["tv"] (mkPolicy 2 0 0 "pause" [" tv"] []) = false.
Proof.
  apply (unstripped_include_matches_nothing (mkPolicy 2 0 0 "pause" [" tv"] []) ["tv"]).
  - discriminate.
  - repeat constructor. discriminate.
Defined.

(** ** Tracker policies *)

Lemma Policy_init_fields kw p :
  Policy_init kw = Ok p ->
  kw_ratio kw = Some (ratio p) /\ kw_seeding_minutes kw = Some (seeding_minutes p)
  /\ kw_idle_minutes kw = Some (idle_minutes p)
  /\ action p = default "pause" (kw_action kw)
  /\ include_tags p = default [] (kw_include_tags kw)
  /\ exclude_tags p = default [] (kw_exclude_tags kw).
Proof.
  unfold Policy_init. destruct (kw_unknown kw); [|discriminate].
  destruct (kw_ratio kw), (kw_seeding_minutes kw), (kw_idle_minutes kw);
    try discriminate.
  intros [= <-]. simpl. auto 10.
Qed.

Lemma build_trackers_unlisted dflt items :
  forall acc m host,
    build_trackers dflt items acc = Ok m ->
    host ∉ items.*1 -> m !! host = acc !! host.
Proof.
  induction items as [|[h0 [c0|]] rest IH]; intros acc m host; simpl;
    [| |discriminate].
  - by intros [= <-].
  - destruct (Policy_init (kw_merge dflt c0)) as [p0|]; simpl; [|discriminate].
    intros H [Hne Hnin]%not_elem_of_cons.
    rewrite (IH _ _ _ H Hnin). by rewrite lookup_insert_ne.
Qed.

Lemma build_trackers_listed dflt items :
  forall acc m host c,
    build_trackers dflt items acc = Ok m ->
    NoDup items.*1 -> (host, Some c) ∈ items ->
    exists p, Policy_init (kw_merge dflt c) = Ok p /\ m !! host = Some p.
Proof.
  induction items as [|[h0 [c0|]] rest IH]; intros acc m host c; simpl;
    [| |discriminate].
  - intros _ _ H. by apply elem_of_nil in H.
  - destruct (Policy_init (kw_merge dflt c0)) as [p0|] eqn:E; simpl; [|discriminate].
    intros H [Hnin Hnd]%NoDup_cons [[= -> ->]|Hin]%elem_of_cons.
    + exists p0. split; [done|].
      rewrite (build_trackers_unlisted _ _ _ _ _ H Hnin). apply lookup_insert_eq.
    + by eapply IH.
Qed.

Lemma from_dict_inv data cfg :
  from_dict data = Ok cfg ->
  Policy_init (doc_default data) = Ok (default_policy cfg)
  /\ build_trackers (doc_default data) (doc_trackers data) ∅ = Ok (tracker_policies cfg).
Proof.
  unfold from_dict. fold (doc_default data). fold (doc_trackers data).
  destruct (Policy_init (doc_default data)) as [p|]; simpl; [|discriminate].
  destruct (build_trackers _ _ _) as [m|]; simpl; [|discriminate].
  destruct (py_int _) as [n|]; simpl; [|discriminate].
  by intros [= <-].
Qed.

(** X6: in a loaded configuration, the policy of a tracker listed in the
    document is the default policy with exactly the fields its override
    gives replaced: every field is the value of the override when it has
    one, and the value of the default policy otherwise. *)
Theorem tracker_policy_inherits data cfg host c :
  from_dict data = Ok cfg ->
  NoDup (doc_trackers data).*1 ->
  (host, Some c) ∈ doc_trackers data ->
  exists p,
    tracker_policies cfg !! host = Some p
    /\ policy_for cfg (Some host) = p
    /\ ratio p = default (ratio (default_policy cfg)) (kw_ratio c)
    /\ seeding_minutes p = default (seeding_minutes (default_policy cfg)) (kw_seeding_minutes c)
    /\ idle_minutes p = default (idle_minutes (default_policy cfg)) (kw_idle_minutes c)
    /\ action p = default (action (default_policy cfg)) (kw_action c)
    /\ include_tags p = default (include_tags (default_policy cfg)) (kw_include_tags c)
    /\ exclude_tags p = default (exclude_tags (default_policy cfg)) (kw_exclude_tags c).
Proof.
  intros [Hd Hb]%from_dict_inv Hnd Hin.
  destruct (build_trackers_listed _ _ _ _ _ _ Hb Hnd Hin) as (p & Hp & Hl).
  exists p. split; [done|]. split; [by simpl; rewrite Hl|].
  apply Policy_init_fields in Hd as (Dr & Ds & Di & Da & Dn & Dx).
  apply Policy_init_fields in Hp as (Pr & Ps & Pi & Pa & Pn & Px).
  rewrite Pa, Pn, Px, Da, Dn, Dx. simpl in *. unfold override in *.
  rewrite Dr in Pr. rewrite Ds in Ps. rewrite Di in Pi.
  destruct (kw_ratio c), (kw_seeding_minutes c), (kw_idle_minutes c),
    (kw_action c), (kw_include_tags c), (kw_exclude_tags c); simpl;
    repeat split; congruence.
Qed.

(** X7: in a loaded configuration, a torrent without tracker host, or whose
    host is not a key of the [trackers] section, gets the default policy. *)
Theorem unlisted_host_gets_default data cfg :
  from_dict data = Ok cfg ->
  policy_for cfg None = default_policy cfg
  /\ (forall host, host ∉ (doc_trackers data).*1 ->
        policy_for cfg (Some host) = default_policy cfg).
Proof.
  intros [_ Hb]%from_dict_inv. split; [done|].
  intros host Hnin. simpl.
  by rewrite (build_trackers_unlisted _ _ _ _ _ Hb Hnin), lookup_empty.
Qed.

(** The statement at a document with one tracker that overrides [ratio]
    and [action]. *)
Lemma tracker_policy_inherits_witness :
  exists p,
    tracker_policies cfg_with_tracker !! "tracker.example.org" = Some p
    /\ policy_for cfg_with_tracker (Some "tracker.example.org") = p
    /\ ratio p = 1%Q /\ seeding_minutes p = 0 /\ idle_minutes p = 30
    /\ action p = "remove" /\ include_tags p = ["tv"] /\ exclude_tags p = [].
Proof.
  assert (Hload : from_dict doc_with_tracker = Ok cfg_with_tracker)
    by (vm_compute; reflexivity).
  apply (tracker_policy_inherits doc_with_tracker cfg_with_tracker
           "tracker.example.org"
           (mkKwargs (Some 1%Q) None None (Some "remove") None None []) Hload).
  - simpl. apply NoDup_singleton.
  - simpl. by apply list_elem_of_singleton.
Defined.

(** The statement at the same document and another host. *)
Lemma unlisted_host_gets_default_witness :
  policy_for cfg_with_tracker (Some "other.example.org")
  = default_policy cfg_with_tracker.
Proof.
  assert (Hload : from_dict doc_with_tracker = Ok cfg_with_tracker)
    by (vm_compute; reflexivity).
  apply (proj2 (unlisted_host_gets_default doc_with_tracker cfg_with_tracker Hload)).
  simpl. intros H%list_elem_of_singleton. discriminate H.
Defined.

(** ** The rules, in terms of the metrics *)

Ltac reason_mem :=
  split;
  [ first [ by intros _
          | let H := fresh in intros H; exfalso; revert H; not_in_reasons ]
  | first [ discriminate
          | intros _; repeat first [apply list_elem_of_here | apply list_elem_of_further] ] ].

Lemma in_reasons policy t now state :
  ("ratio" ∈ (evaluate policy t now state).1 <-> ratio_fires policy t = true)
  /\ ("seeding_time" ∈ (evaluate policy t now state).1 <-> seeding_fires policy t = true)
  /\ ("idle" ∈ (evaluate policy t now state).1 <-> idle_fires policy t now state = true).
Proof. case_fires; (split; [|split]); reason_mem. Qed.

Lemma Qle_div_60 (a d : Q) : (a <= d / 60 <-> a * 60 <= d)%Q.
Proof.
  assert (H : (d / 60 * 60 == d)%Q) by field.
  rewrite <- (Qmult_le_r a (d / 60) 60) by reflexivity.
  by rewrite H.
Qed.

Lemma minutes_elapsed (m : Z) (d : Q) :
  Qle_bool (inject_Z m) (d / 60) = true <-> (inject_Z (60 * m) <= d)%Q.
Proof.
  rewrite Qle_bool_iff, Qle_div_60, Z.mul_comm, inject_Z_mult. reflexivity.
Qed.

Lemma idle_fires_tracked policy t now state st :
  state !! t_hash t = Some st ->
  idle_fires policy t now state = true <->
  t_uploaded t <= uploaded st /\ idle_minutes policy <> 0 /\ t_upspeed t = 0
  /\ (inject_Z (60 * idle_minutes policy) <= now - last_up st)%Q.
Proof.
  intros Hl. unfold idle_fires, entry_read, z_truthy. rewrite Hl. simpl.
  rewrite !andb_true_iff, !negb_true_iff, Z.ltb_ge, Z.eqb_neq, Z.eqb_eq,
    minutes_elapsed. tauto.
Qed.

(** X8: ["ratio"] is a reason exactly when the ratio threshold is not 0 and
    the ratio of the torrent reaches it; ["seeding_time"] exactly when the
    threshold is not 0 and the seeding time, in seconds, is at least 60
    times the threshold: only full minutes count. *)
Theorem threshold_rules_iff policy t now state :
  ("ratio" ∈ (evaluate policy t now state).1 <->
     ~ (ratio policy == 0)%Q /\ (ratio policy <= t_ratio t)%Q)
  /\ ("seeding_time" ∈ (evaluate policy t now state).1 <->
        seeding_minutes policy <> 0
        /\ 60 * seeding_minutes policy <= t_seeding_time t).
Proof.
  destruct (in_reasons policy t now state) as (Hr & Hs & _). split.
  - rewrite Hr. unfold ratio_fires, q_truthy.
    rewrite andb_true_iff, negb_true_iff, Qle_bool_iff.
    split; intros [H1 H2]; (split; [|done]).
    + by apply Qeq_bool_neq.
    + destruct (Qeq_bool (ratio policy) 0) eqn:E; [|done].
      by apply Qeq_bool_iff in E.
  - rewrite Hs. unfold seeding_fires, z_truthy.
    rewrite andb_true_iff, negb_true_iff, Z.eqb_neq, Z.leb_le.
    split; intros [H1 H2]; (split; [done|]).
    + pose proof (Z.mul_div_le (t_seeding_time t) 60 eq_refl). lia.
    + apply Z.div_le_lower_bound; lia.
Qed.

(** The statement at a torrent one second short of two hours under a
    threshold of 120 minutes. *)
Lemma threshold_rules_iff_witness :
  "seeding_time" ∉ (evaluate (mkPolicy 0 120 0 "pause" [] [])
                      (mkTorrent "aa" "linux.iso" "" 0 7199 0 0) 0 ∅).1.
Proof.
  intros H.
  apply (proj1 (proj2 (threshold_rules_iff (mkPolicy 0 120 0 "pause" [] [])
                         (mkTorrent "aa" "linux.iso" "" 0 7199 0 0) 0 ∅))) in H.
  simpl in H. lia.
Defined.

(** X9: for a torrent that is already tracked, ["idle"] is a reason exactly
    when it shows no progress (its uploaded bytes do not exceed the stored
    ones), the idle threshold is not 0, its upload speed is 0, and at least
    60 times the threshold, in seconds, have passed since the stored
    timestamp. *)
Theorem idle_rule_iff policy t now state st :
  state !! t_hash t = Some st ->
  "idle" ∈ (evaluate policy t now state).1 <->
  t_uploaded t <= uploaded st /\ idle_minutes policy <> 0 /\ t_upspeed t = 0
  /\ (inject_Z (60 * idle_minutes policy) <= now - last_up st)%Q.
Proof.
  intros Hl. destruct (in_reasons policy t now state) as (_ & _ & Hi).
  rewrite Hi. by apply idle_fires_tracked.
Qed.

(** The statement 31 minutes after the stored timestamp, under 30 idle
    minutes. *)
Lemma idle_rule_iff_witness :
  "idle" ∈ (evaluate (mkPolicy 0 0 30 "pause" [] [])
              (mkTorrent "aa" "linux.iso" "" 0 0 1000 0) 1860
              {[ "aa" := mkIdle 1000 0 ]}).1.
Proof.
  apply (proj2 (idle_rule_iff (mkPolicy 0 0 30 "pause" [] [])
                  (mkTorrent "aa" "linux.iso" "" 0 0 1000 0) 1860
                  {[ "aa" := mkIdle 1000 0 ]} (mkIdle 1000 0)
                  (lookup_singleton_eq _ _))).
  simpl. split; [lia|]. split; [lia|]. split; [reflexivity|]. by vm_compute.
Defined.

(** ** The entry of a torrent *)

Lemma entry_after policy t now state :
  (evaluate policy t now state).2 !! t_hash t = Some (entry_written t now state).
Proof. rewrite evaluate_state. apply lookup_insert_eq. Qed.

Lemma entry_written_fresh t now state :
  state !! t_hash t = None -> entry_written t now state = mkIdle (t_uploaded t) now.
Proof.
  intros H. unfold entry_written, entry_read. rewrite H. simpl.
  by rewrite Z.ltb_irrefl.
Qed.

Lemma entry_written_progress t now state st :
  state !! t_hash t = Some st -> uploaded st < t_uploaded t ->
  entry_written t now state = mkIdle (t_uploaded t) now.
Proof.
  intros H Hlt. unfold entry_written, entry_read. rewrite H. simpl.
  by apply Z.ltb_lt in Hlt as ->.
Qed.

Lemma entry_written_same t now state st :
  state !! t_hash t = Some st -> t_uploaded t <= uploaded st ->
  entry_written t now state = st.
Proof.
  intros H Hle. unfold entry_written, entry_read. rewrite H. simpl.
  by apply Z.ltb_ge in Hle as ->.
Qed.

(** X10: what one observation does to [self.state], whatever the policy.
    The entries of the other hashes are kept. A hash seen for the first time
    gets the entry (uploaded bytes, now). A tracked hash whose uploaded
    bytes exceed the stored ones gets that entry too, and is not idle in
    this observation. A tracked hash without progress, also one whose
    uploaded bytes went down, leaves the whole map as it is. *)
Theorem observation_updates_entry policy t now state :
  (forall h, h <> t_hash t ->
     (evaluate policy t now state).2 !! h = state !! h)
  /\ (state !! t_hash t = None ->
      (evaluate policy t now state).2 !! t_hash t = Some (mkIdle (t_uploaded t) now))
  /\ (forall st, state !! t_hash t = Some st -> uploaded st < t_uploaded t ->
        (evaluate policy t now state).2 !! t_hash t = Some (mkIdle (t_uploaded t) now)
        /\ "idle" ∉ (evaluate policy t now state).1)
  /\ (forall st, state !! t_hash t = Some st -> t_uploaded t <= uploaded st ->
        (evaluate policy t now state).2 = state).
Proof.
  split; [|split; [|split]].
  - intros h Hne. rewrite evaluate_state. by apply lookup_insert_ne.
  - intros Hn. by rewrite entry_after, entry_written_fresh.
  - intros st Hl Hlt. split.
    + by rewrite entry_after, (entry_written_progress _ _ _ st).
    + destruct (in_reasons policy t now state) as (_ & _ & Hi). rewrite Hi.
      rewrite (idle_fires_tracked _ _ _ _ st Hl). lia.
  - intros st Hl Hle.
    rewrite evaluate_state, (entry_written_same _ _ _ st) by done.
    by apply insert_id.
Qed.

(** The statement at a torrent whose uploaded bytes went down. *)
Lemma observation_updates_entry_witness :
  (evaluate (mkPolicy 0 0 30 "pause" [] [])
     (mkTorrent "aa" "linux.iso" "" 0 0 400 0) 1860 {[ "aa" := mkIdle 1000 0 ]}).2
  = {[ "aa" := mkIdle 1000 0 ]}.
Proof.
  apply (proj2 (proj2 (proj2 (observation_updates_entry
                  (mkPolicy 0 0 30 "pause" [] [])
                  (mkTorrent "aa" "linux.iso" "" 0 0 400 0) 1860
                  {[ "aa" := mkIdle 1000 0 ]}))) (mkIdle 1000 0)).
  - apply lookup_singleton_eq.
  - simpl. lia.
Defined.

(** X11: the idle clock of a torrent starts at the observation that
    creates or resets its entry: if a later observation of the same hash
    shows no more uploaded bytes, ["idle"] is a reason exactly when the
    threshold is not 0, the upload speed is 0 and at least 60 times the
    threshold, in seconds, lie between the two clock readings. *)
Theorem idle_clock_starts_at_progress policy policy' t t' now now' state :
  t_hash t' = t_hash t ->
  (state !! t_hash t = None
   \/ exists st, state !! t_hash t = Some st /\ uploaded st < t_uploaded t) ->
  t_uploaded t' <= t_uploaded t ->
  "idle" ∈ (evaluate policy' t' now' (evaluate policy t now state).2).1 <->
  idle_minutes policy' <> 0 /\ t_upspeed t' = 0
  /\ (inject_Z (60 * idle_minutes policy') <= now' - now)%Q.
Proof.
  intros Hh Hstart Hle.
  assert (E : (evaluate policy t now state).2 !! t_hash t'
              = Some (mkIdle (t_uploaded t) now)).
  { rewrite Hh, entry_after. destruct Hstart as [Hn|(st & Hl & Hlt)].
    - by rewrite entry_written_fresh.
    - by rewrite (entry_written_progress _ _ _ st). }
  destruct (in_reasons policy' t' now' (evaluate policy t now state).2)
    as (_ & _ & Hi).
  rewrite Hi, (idle_fires_tracked _ _ _ _ _ E). simpl. tauto.
Qed.

(** The statement at a torrent first seen at second 0 and seen again,
    unchanged, at second 1800, under 30 idle minutes. *)
Lemma idle_clock_starts_at_progress_witness :
  "idle" ∈ (evaluate (mkPolicy 0 0 30 "pause" [] [])
              (mkTorrent "aa" "linux.iso" "" 0 0 1000 0) 1800
              (evaluate (mkPolicy 0 0 30 "pause" [] [])
                 (mkTorrent "aa" "linux.iso" "" 0 0 1000 0) 0 ∅).2).1.
Proof.
  apply (proj2 (idle_clock_starts_at_progress
                  (mkPolicy 0 0 30 "pause" [] []) (mkPolicy 0 0 30 "pause" [] [])
                  (mkTorrent "aa" "linux.iso" "" 0 0 1000 0)
                  (mkTorrent "aa" "linux.iso" "" 0 0 1000 0) 0 1800 ∅
                  eq_refl (or_introl (lookup_empty _)) (Z.le_refl _))).
  simpl. split; [lia|]. split; [reflexivity|]. by vm_compute.
Defined.

(** ** The calls of a cycle *)

Lemma extends_refl P s : extends P s s.
Proof. exists []. split; [by rewrite app_nil_r|constructor]. Qed.

Lemma extends_trans P s1 s2 s3 : extends P s1 s2 -> extends P s2 s3 -> extends P s1 s3.
Proof.
  intros (e1 & H1 & F1) (e2 & H2 & F2). exists (e1 ++ e2). split.
  - by rewrite H2, H1, app_assoc.
  - by apply Forall_app.
Qed.

Lemma extends_mono (P Q : event -> Prop) s s' :
  (forall ev, P ev -> Q ev) -> extends P s s' -> extends Q s s'.
Proof.
  intros HPQ (evs & H & F). exists evs. split; [done|].
  eapply Forall_impl; [exact F|exact HPQ].
Qed.

Lemma extends_step_to P s state evs : Forall P evs -> extends P s (step_to s state evs).
Proof. intros H. by exists evs. Qed.

Lemma extends_log_to P s evs : Forall P evs -> extends P s (log_to s evs).
Proof. intros H. by exists evs. Qed.

Lemma policy_for_policy_of cfg host : policy_of cfg (policy_for cfg host).
Proof.
  unfold policy_of, policy_for. destruct host as [h|]; [|by left].
  destruct (tracker_policies cfg !! h) as [p|] eqn:E; simpl; [|by left].
  right. by exists h.
Qed.

Lemma dispatch_call_event w a h ev r :
  dispatch_call w a h = Some (ev, r) ->
  (ev = EvPause h /\ a = "pause") \/ (ev = EvDelete false h /\ a = "remove")
  \/ (ev = EvDelete true h /\ a = "remove_data").
Proof.
  unfold dispatch_call.
  destruct (String.eqb a "pause") eqn:E1; [apply String.eqb_eq in E1|].
  { intros [= <- _]. auto. }
  destruct (String.eqb a "remove") eqn:E2; [apply String.eqb_eq in E2|].
  { intros [= <- _]. auto. }
  destruct (String.eqb a "remove_data") eqn:E3; [apply String.eqb_eq in E3|].
  { intros [= <- _]. auto. }
  discriminate.
Qed.

Lemma body_event_trackers self t : body_event self t (EvTrackers (t_hash t)).
Proof. split; [intros h; discriminate|split; exact I]. Qed.

Lemma body_event_log self t msg : body_event self t (EvLogInfo msg).
Proof. split; [intros h; discriminate|split; exact I]. Qed.

Lemma body_event_call self w host t ev r :
  self_dry_run self = false ->
  dispatch_call w (lower (action (policy_for (self_cfg self) host))) (t_hash t)
    = Some (ev, r) ->
  body_event self t ev.
Proof.
  intros Hd H. pose proof (policy_for_policy_of (self_cfg self) host) as Hp.
  apply dispatch_call_event in H as [[-> Ha]|[[-> Ha]|[-> Ha]]];
    (split; [by intros h [= <-]|]); (split; [|done]); simpl; eauto.
Qed.

Ltac Forall_events :=
  repeat (apply Forall_cons; split); try (by apply Forall_nil).

Lemma cycle_body_events self w now t s r s' :
  cycle_body self w now t s = (r, s') -> extends (body_event self t) s s'.
Proof.
  pose proof (body_event_trackers self t) as Ht.
  rewrite cycle_body_spec. destruct (resolve_host w (t_hash t)) as [host|e].
  - cbv zeta. destruct (match_tags _ _).
    + destruct (evaluate _ t now (idle s)) as [reasons state].
      destruct (list_truthy reasons).
      * destruct (self_dry_run self) eqn:Hd.
        { rewrite apply_action_dry, step_to_log_to by done. intros [= _ <-].
          apply extends_step_to. Forall_events; [exact Ht|apply body_event_log]. }
        rewrite apply_action_live by done.
        destruct (dispatch_call _ _ _) as [[ev [[]|e]]|] eqn:Hc;
          rewrite step_to_log_to; intros [= _ <-]; apply extends_step_to;
          Forall_events;
          first [exact Ht | apply body_event_log | by eapply body_event_call].
      * intros [= _ <-]. apply extends_step_to. Forall_events. exact Ht.
    + intros [= _ <-]. apply extends_log_to. Forall_events. exact Ht.
  - intros [= _ <-]. apply extends_log_to. Forall_events. exact Ht.
Qed.

Lemma for_each_events self w now ts :
  forall s r s', for_each ts (cycle_body self w now) s = (r, s') ->
                 extends (cycle_event self ts) s s'.
Proof.
  induction ts as [|t ts IH]; intros s r s'; simpl.
  - intros [= _ <-]. apply extends_refl.
  - unfold bind. destruct (cycle_body self w now t s) as [r1 s1] eqn:E.
    apply cycle_body_events in E.
    assert (E' : extends (cycle_event self (t :: ts)) s s1).
    { eapply extends_mono; [|exact E]. intros ev Hev. exists t.
      split; [apply list_elem_of_here|done]. }
    destruct r1 as [[]|e]; [|by intros [= _ <-]].
    intros H%IH. eapply extends_trans; [exact E'|].
    eapply extends_mono; [|exact H]. intros ev (t' & Hin & Hev). exists t'.
    split; [by apply list_elem_of_further|done].
Qed.

(** The events of one cycle: the list request, then events of the loop
    body for listed torrents. *)
Lemma cycle_events self w s r s' :
  _cycle self w s = (r, s') ->
  exists evs, trace s' = trace s ++ EvTorrentsInfo :: evs
    /\ Forall (cycle_event self (match torrents_info w with Ok ts => ts | _ => [] end)) evs.
Proof.
  rewrite cycle_spec. destruct (torrents_info w) as [ts|e].
  - intros (evs & Ht & F)%for_each_events. exists evs. split; [|done].
    rewrite Ht. simpl. by rewrite <- app_assoc.
  - intros [= _ <-]. exists []. split; [done|constructor].
Qed.

(** X12: every pause or delete call of a cycle is about a torrent of the
    list [torrents_info] returned in that cycle; when the list request
    fails, the cycle makes no call at all. *)
Theorem calls_target_listed_torrents self w s r s' :
  _cycle self w s = (r, s') ->
  exists evs, trace s' = trace s ++ evs
    /\ forall ev h, ev ∈ evs -> target ev = Some h ->
         exists ts t, torrents_info w = Ok ts /\ t ∈ ts /\ t_hash t = h.
Proof.
  intros (evs & Ht & F)%cycle_events. exists (EvTorrentsInfo :: evs).
  split; [done|]. intros ev h [->|Hin]%elem_of_cons Htg; [discriminate|].
  rewrite Forall_forall in F. destruct (F ev Hin) as (t & Hint & Hh & _).
  destruct (torrents_info w) as [ts|e]; [|by apply elem_of_nil in Hint].
  exists ts, t. split; [done|]. split; [done|]. symmetry. by apply Hh.
Qed.

(** The statement at a cycle that pauses the one listed torrent. *)
Lemma calls_target_listed_torrents_witness :
  exists evs,
    [EvTorrentsInfo; EvTrackers "aa"; EvPause "aa";
     EvLogInfo "PAUSE | aa | linux.iso | - | ratio"] = [] ++ evs
    /\ forall ev h, ev ∈ evs -> target ev = Some h ->
         exists ts t, Ok [ex_torrent "aa" "" 1000] = Ok ts /\ t ∈ ts /\ t_hash t = h.
Proof.
  assert (H : _cycle (Sentinel_init (ex_cfg "pause") true false)
                (quiet_world [ex_torrent "aa" "" 1000] 0) St_init
              = (Ok tt,
                 mkSt {[ "aa" := mkIdle 1000 0 ]}
                   [EvTorrentsInfo; EvTrackers "aa"; EvPause "aa";
                    EvLogInfo "PAUSE | aa | linux.iso | - | ratio"]))
    by (vm_compute; reflexivity).
  apply (calls_target_listed_torrents _ _ _ _ _ H).
Defined.

(** ** The calls of a run *)

Lemma run_permitted self ws :
  forall s r s', run self ws s = (r, s') -> extends (permitted self) s s'.
Proof.
  induction ws as [|w ws IH]; intros s r s'.
  - simpl. intros [= _ <-]. apply extends_refl.
  - rewrite run_cons. destruct (_cycle self w s) as [r1 s1] eqn:E.
    assert (E' : extends (permitted self) s s1).
    { apply cycle_events in E as (evs & Ht & F). exists (EvTorrentsInfo :: evs).
      split; [done|]. constructor; [done|].
      eapply Forall_impl; [exact F|]. by intros ev (t & _ & _ & Hp & _). }
    destruct r1 as [[]|e].
    + destruct (self_once self); [by intros [= _ <-]|].
      destruct (_ <? 0); [by intros [= _ <-]|].
      intros H%IH. eapply extends_trans; [exact E'|].
      eapply extends_trans; [|exact H]. apply extends_log_to. by repeat constructor.
    + destruct (is_LoginFailed e).
      { intros [= _ <-]. eapply extends_trans; [exact E'|].
        apply extends_log_to. by repeat constructor. }
      destruct (is_APIConnectionError e).
      { intros [= _ <-]. eapply extends_trans; [exact E'|].
        apply extends_log_to. by repeat constructor. }
      by intros [= _ <-].
Qed.

(** X13: over a whole run, a call is made only outside dry-run and only if
    a policy of the configuration asks for it: a pause needs a policy whose
    action reads [pause], a delete that keeps the files one that reads
    [remove], and a delete with the files one that reads [remove_data],
    upper and lower case alike. In particular files are never deleted
    unless some policy says [remove_data]. *)
Theorem calls_follow_policies self ws s r s' :
  run self ws s = (r, s') ->
  exists evs, trace s' = trace s ++ evs
    /\ Forall (permitted self) evs
    /\ (forall h, EvDelete true h ∈ evs ->
          self_dry_run self = false
          /\ exists p, policy_of (self_cfg self) p /\ lower (action p) = "remove_data").
Proof.
  intros (evs & Ht & F)%run_permitted. exists evs. split; [done|]. split; [done|].
  intros h Hin. rewrite Forall_forall in F. exact (F _ Hin).
Qed.

(** The statement at a run of one cycle under the action [Remove]. *)
Lemma calls_follow_policies_witness :
  exists evs,
    [EvTorrentsInfo; EvTrackers "aa"; EvDelete false "aa";
     EvLogInfo "REMOVE | aa | linux.iso | - | ratio"] = [] ++ evs
    /\ Forall (permitted (Sentinel_init (ex_cfg "Remove") true false)) evs
    /\ (forall h, EvDelete true h ∈ evs ->
          false = false
          /\ exists p, policy_of (ex_cfg "Remove") p /\ lower (action p) = "remove_data").
Proof.
  assert (H : run (Sentinel_init (ex_cfg "Remove") true false)
                [quiet_world [ex_torrent "aa" "" 1000] 0] St_init
              = (Ok Returned,
                 mkSt {[ "aa" := mkIdle 1000 0 ]}
                   [EvTorrentsInfo; EvTrackers "aa"; EvDelete false "aa";
                    EvLogInfo "REMOVE | aa | linux.iso | - | ratio"]))
    by (vm_compute; reflexivity).
  apply (calls_follow_policies _ _ _ _ _ H).
Defined.

(** ** The run loop *)

(** X14: with [--once], [run] performs exactly one cycle, whatever would
    follow: it makes one list request, never sleeps, and returns or lets an
    exception through. *)
Theorem once_runs_one_cycle self w ws s :
  self_once self = true ->
  run self (w :: ws) s = run self [w] s
  /\ forall r s', run self (w :: ws) s = (r, s') ->
       r <> Ok Looping
       /\ exists evs, trace s' = trace s ++ EvTorrentsInfo :: evs
            /\ Forall (fun ev => ev <> EvTorrentsInfo /\ forall n, ev <> EvSleep n) evs.
Proof.
  intros Ho. split; [by rewrite !run_cons, Ho|].
  intros r s'. rewrite run_cons, Ho.
  destruct (_cycle self w s) as [r1 s1] eqn:E.
  apply cycle_events in E as (evs & Ht & F).
  assert (F' : Forall (fun ev => ev <> EvTorrentsInfo /\ forall n, ev <> EvSleep n) evs).
  { eapply Forall_impl; [exact F|].
    intros ev (t & _ & _ & _ & Hk). by destruct ev. }
  destruct r1 as [[]|e].
  - intros [= <- <-]. split; [discriminate|]. by exists evs.
  - destruct (is_LoginFailed e); [|destruct (is_APIConnectionError e)];
      intros [= <- <-]; (split; [discriminate|]).
    + eexists (evs ++ [_]). simpl. rewrite Ht, <- app_assoc. split; [done|].
      apply Forall_app. split; [done|]. by repeat constructor.
    + eexists (evs ++ [_]). simpl. rewrite Ht, <- app_assoc. split; [done|].
      apply Forall_app. split; [done|]. by repeat constructor.
    + by exists evs.
Qed.

(** The statement at a run of three environments with [--once]. *)
Lemma once_runs_one_cycle_witness :
  run (Sentinel_init idle_only_cfg true false)
    [quiet_world [] 0; quiet_world [] 60; quiet_world [] 120] St_init
  = run (Sentinel_init idle_only_cfg true false) [quiet_world [] 0] St_init.
Proof.
  apply (proj1 (once_runs_one_cycle (Sentinel_init idle_only_cfg true false)
                  (quiet_world [] 0) [quiet_world [] 60; quiet_world [] 120]
                  St_init eq_refl)).
Defined.

(** X15: a cycle that raises is the last one: [run] starts no other cycle
    and does not sleep. When the list request itself fails, [self.state] is
    untouched; a [LoginFailed] is logged as a failed login, any other
    [APIConnectionError] as a connection error, and [run] returns; every
    other exception leaves [run]. *)
Theorem failed_cycle_ends_run self w ws s :
  (forall e s1, _cycle self w s = (Raise e, s1) ->
     run self (w :: ws) s = run self [w] s)
  /\ (forall e, torrents_info w = Raise e ->
        run self (w :: ws) s =
        if is_LoginFailed e then
          (Ok Returned,
           log_to s [EvTorrentsInfo; EvLogError ("Login failed: " ++ exn_str e)%string])
        else if is_APIConnectionError e then
          (Ok Returned,
           log_to s [EvTorrentsInfo; EvLogError ("Connection error: " ++ exn_str e)%string])
        else (Raise e, log_to s [EvTorrentsInfo])).
Proof.
  split.
  - intros e s1 E. by rewrite !run_cons, E.
  - intros e He. rewrite run_cons, cycle_spec, He.
    destruct (is_LoginFailed e); [by rewrite log_to_log_to|].
    destruct (is_APIConnectionError e); [by rewrite log_to_log_to|]. reflexivity.
Qed.

(** The statement at a list request that is refused at login. *)
Lemma failed_cycle_ends_run_witness :
  run (Sentinel_init idle_only_cfg false false)
    [mkWorld (Raise (LoginFailed "403")) (fun _ => Ok []) (fun _ => Ok tt)
       (fun _ _ => Ok tt) (fun _ => Ok None) 0;
     quiet_world [] 60] St_init
  = (Ok Returned, mkSt ∅ [EvTorrentsInfo; EvLogError "Login failed: 403"]).
Proof.
  apply (proj2 (failed_cycle_ends_run (Sentinel_init idle_only_cfg false false)
                  (mkWorld (Raise (LoginFailed "403")) (fun _ => Ok [])
                     (fun _ => Ok tt) (fun _ _ => Ok tt) (fun _ => Ok None) 0)
                  [quiet_world [] 60] St_init) (LoginFailed "403") eq_refl).
Defined.

(** ** What a cycle tracks *)

Lemma cycle_body_admitted_idle self w now t s r s' :
  admitted self w t = Ok true ->
  cycle_body self w now t s = (r, s') ->
  idle s' = <[t_hash t := entry_written t now (idle s)]> (idle s).
Proof.
  unfold admitted. rewrite cycle_body_spec.
  destruct (resolve_host w (t_hash t)) as [host|e]; simpl; [|discriminate].
  intros [= ->].
  pose proof (evaluate_state (policy_for (self_cfg self) host) t now (idle s)) as E.
  destruct (evaluate _ t now (idle s)) as [reasons state]. simpl in E.
  destruct (list_truthy reasons).
  - intros H%apply_action_idle. by rewrite H, <- E.
  - intros [= _ <-]. by rewrite <- E.
Qed.

Lemma entry_written_ge t now m : t_uploaded t <= uploaded (entry_written t now m).
Proof.
  unfold entry_written.
  destruct (Z.ltb_spec (uploaded (entry_read t now m)) (t_uploaded t)); simpl; lia.
Qed.

Lemma for_each_tracks self w now ts :
  forall s s', for_each ts (cycle_body self w now) s = (Ok tt, s') ->
    forall t, t ∈ ts -> admitted self w t = Ok true ->
      exists st, idle s' !! t_hash t = Some st /\ t_uploaded t <= uploaded st.
Proof.
  induction ts as [|t0 ts IH]; intros s s'; simpl.
  - intros _ t H. by apply elem_of_nil in H.
  - unfold bind. destruct (cycle_body self w now t0 s) as [[[]|e] s1] eqn:E;
      [|discriminate].
    intros H t [->|Hin]%elem_of_cons Ha; [|by eapply IH].
    apply (cycle_body_admitted_idle _ _ _ _ _ _ _ Ha) in E.
    apply for_each_advance in H as [Hu _].
    destruct (Hu (t_hash t0) (entry_written t0 now (idle s))) as (st' & Hl & Hle & _).
    { rewrite E. apply lookup_insert_eq. }
    exists st'. split; [done|]. pose proof (entry_written_ge t0 now (idle s)). lia.
Qed.

(** X16: after a cycle that ends without exception, every listed torrent
    the tag filter admits is tracked, with at least its uploaded bytes
    stored; and whatever the outcome of the cycle, the entries of the hashes
    that are not listed are as before: a cycle never removes or rewrites the
    entry of a torrent that is no longer seeding. *)
Theorem cycle_tracks_listed_torrents self w ts s r s' :
  torrents_info w = Ok ts ->
  _cycle self w s = (r, s') ->
  (r = Ok tt ->
   forall t, t ∈ ts -> admitted self w t = Ok true ->
     exists st, idle s' !! t_hash t = Some st /\ t_uploaded t <= uploaded st)
  /\ (forall h, (forall t, t ∈ ts -> t_hash t <> h) -> idle s' !! h = idle s !! h).
Proof.
  intros Hts. rewrite cycle_spec, Hts. intros H. split.
  - intros -> t Hin Ha. by eapply for_each_tracks.
  - intros h Hh.
    apply (for_each_idle_frame self w (time_time w) h ts) in H; [done|].
    intros t Hin Heq. by destruct (Hh t Hin).
Qed.

(** The statement at a cycle that lists one torrent while another one is
    already tracked. *)
Lemma cycle_tracks_listed_torrents_witness :
  ({[ "aa" := mkIdle 1000 60; "zz" := mkIdle 7 0 ]} : gmap string IdleState) !! "zz"
  = ({[ "zz" := mkIdle 7 0 ]} : gmap string IdleState) !! "zz".
Proof.
  assert (H : _cycle (Sentinel_init idle_only_cfg true false)
                (quiet_world [ex_torrent "aa" "" 1000] 60)
                (mkSt {[ "zz" := mkIdle 7 0 ]} [])
              = (Ok tt,
                 mkSt {[ "aa" := mkIdle 1000 60; "zz" := mkIdle 7 0 ]}
                   [EvTorrentsInfo; EvTrackers "aa"]))
    by (vm_compute; reflexivity).
  apply (proj2 (cycle_tracks_listed_torrents
                  (Sentinel_init idle_only_cfg true false)
                  (quiet_world [ex_torrent "aa" "" 1000] 60)
                  [ex_torrent "aa" "" 1000] _ _ _ eq_refl H) "zz").
  intros t ->%list_elem_of_singleton. discriminate.
Defined.

(** ** The parameters of the client *)

Lemma foldl_insert_unlisted {V} (items : list (string * V)) :
  forall (acc : gmap string V) k,
    k ∉ items.*1 ->
    foldl (fun d kv => <[kv.1 := kv.2]> d) acc items !! k = acc !! k.
Proof.
  induction items as [|[k0 v0] rest IH]; intros acc k; simpl; [done|].
  intros [Hne Hnin]%not_elem_of_cons. rewrite IH by done.
  by apply lookup_insert_ne.
Qed.

Lemma foldl_insert_listed {V} (items : list (string * V)) :
  forall (acc : gmap string V) k v,
    NoDup items.*1 -> (k, v) ∈ items ->
    foldl (fun d kv => <[kv.1 := kv.2]> d) acc items !! k = Some v.
Proof.
  induction items as [|[k0 v0] rest IH]; intros acc k v; simpl.
  - intros _ H. by apply elem_of_nil in H.
  - intros [Hnin Hnd]%NoDup_cons [[= -> ->]|Hin]%elem_of_cons.
    + rewrite foldl_insert_unlisted by done. apply lookup_insert_eq.
    + by apply IH.
Qed.

Lemma pop_into_lookup {V} (d : gmap string V) (old new : string) (f : V -> V) k :
  old <> new ->
  pop_into old new f d !! k
  = if decide (k = new)
    then match d !! old with Some v => Some (f v) | None => d !! new end
    else if decide (k = old) then None else d !! k.
Proof.
  intros Hne. unfold pop_into. destruct (d !! old) as [v|] eqn:E;
    repeat case_decide; subst; try done.
  - apply lookup_insert_eq.
  - by rewrite lookup_insert_ne, lookup_delete_eq.
  - by rewrite lookup_insert_ne, lookup_delete_ne.
Qed.

Lemma client_params_pop_into cfg :
  client_params cfg
  = pop_into "timeout" "REQUESTS_ARGS" (Nested "timeout")
      (pop_into "verify_ssl" "VERIFY_WEBUI_CERTIFICATE" id
         (dict_of_items (prod_map id Scalar <$> qbittorrent cfg))).
Proof. reflexivity. Qed.

(** X17: the keyword arguments [Sentinel.__init__] passes to the client
    never contain [verify_ssl] or [timeout]: the value of [verify_ssl] is
    passed as [VERIFY_WEBUI_CERTIFICATE] and the value of [timeout] inside
    [REQUESTS_ARGS], each replacing a value the section gives under that
    name; every other key of the [qbittorrent] section is passed as it
    is. *)
Theorem client_params_renamed cfg :
  client_params cfg !! "verify_ssl" = None
  /\ client_params cfg !! "timeout" = None
  /\ (forall k, k <> "verify_ssl" -> k <> "timeout" ->
        k <> "VERIFY_WEBUI_CERTIFICATE" -> k <> "REQUESTS_ARGS" ->
        client_params cfg !! k
        = dict_of_items (prod_map id Scalar <$> qbittorrent cfg) !! k)
  /\ client_params cfg !! "VERIFY_WEBUI_CERTIFICATE"
     = match dict_of_items (prod_map id Scalar <$> qbittorrent cfg) !! "verify_ssl" with
       | Some v => Some v
       | None => dict_of_items (prod_map id Scalar <$> qbittorrent cfg)
                   !! "VERIFY_WEBUI_CERTIFICATE"
       end
  /\ client_params cfg !! "REQUESTS_ARGS"
     = match dict_of_items (prod_map id Scalar <$> qbittorrent cfg) !! "timeout" with
       | Some v => Some (Nested "timeout" v)
       | None => dict_of_items (prod_map id Scalar <$> qbittorrent cfg)
                   !! "REQUESTS_ARGS"
       end
  /\ (forall k v, NoDup (qbittorrent cfg).*1 -> (k, v) ∈ qbittorrent cfg ->
        dict_of_items (prod_map id Scalar <$> qbittorrent cfg) !! k = Some (Scalar v)).
Proof.
  rewrite client_params_pop_into.
  set (d := dict_of_items (prod_map id Scalar <$> qbittorrent cfg)).
  split; [|split; [|split; [|split; [|split]]]].
  - rewrite !pop_into_lookup by done. by repeat case_decide.
  - rewrite !pop_into_lookup by done. by repeat case_decide.
  - intros k H1 H2 H3 H4. rewrite !pop_into_lookup by done.
    by repeat case_decide.
  - rewrite !pop_into_lookup by done. by repeat case_decide.
  - rewrite !pop_into_lookup by done. by repeat case_decide.
  - intros k v Hnd Hin. apply foldl_insert_listed.
    + rewrite <- list_fmap_compose.
      by replace (fst ∘ prod_map id Scalar) with (@fst string string).
    + apply list_elem_of_fmap. by exists (k, v).
Qed.

(** The statement at a section that gives [host], [verify_ssl] and
    [timeout]. *)
Lemma client_params_renamed_witness :
  dict_of_items (prod_map id Scalar <$>
                   [("host", "http://localhost:8080"); ("verify_ssl", "false");
                    ("timeout", "30")]) !! "timeout"
  = Some (Scalar "30").
Proof.
  apply (proj2 (proj2 (proj2 (proj2 (proj2 (client_params_renamed
           (mkConfig [("host", "http://localhost:8080"); ("verify_ssl", "false");
                      ("timeout", "30")]
              (ex_policy "pause") ∅ 60 true "INFO"))))))).
  - simpl. repeat (apply NoDup_cons; split; [not_in_reasons|]). apply NoDup_nil_2.
  - simpl. repeat first [apply list_elem_of_here | apply list_elem_of_further].
Defined.

(** The parameters that section gives the client. *)
Example client_params_example :
  client_params
    (mkConfig [("host", "http://localhost:8080"); ("verify_ssl", "false");
               ("timeout", "30")]
       (ex_policy "pause") ∅ 60 true "INFO")
  = {[ "host" := Scalar "http://localhost:8080";
       "VERIFY_WEBUI_CERTIFICATE" := Scalar "false";
       "REQUESTS_ARGS" := Nested "timeout" (Scalar "30") ]}.
Proof. vm_compute. reflexivity. Qed.

(** ** Observation and dispatch *)

(** X18: the observation of a torrent is stored before its action is
    dispatched, so [self.state] after the loop body depends on neither
    dry-run, nor the action, nor the outcome of the call: for an admitted
    torrent it is the state with the entry of the hash written, also when
    the call raised; for any other torrent it is the state as before. *)
Theorem observation_survives_dispatch self w now t s r s' :
  cycle_body self w now t s = (r, s') ->
  idle s' = match admitted self w t with
            | Ok true => <[t_hash t := entry_written t now (idle s)]> (idle s)
            | _ => idle s
            end.
Proof.
  intros H. destruct (admitted self w t) as [[]|e] eqn:Ha.
  - by eapply cycle_body_admitted_idle.
  - apply cycle_body_idle in H as [H|[H _]]; [done|congruence].
  - apply cycle_body_idle in H as [H|[H _]]; [done|congruence].
Qed.

(** The statement at a torrent whose pause call is refused. *)
Lemma observation_survives_dispatch_witness :
  ({[ "aa" := mkIdle 1000 0 ]} : gmap string IdleState)
  = <["aa" := entry_written (ex_torrent "aa" "" 1000) 0 ∅]> ∅.
Proof.
  assert (H : cycle_body (Sentinel_init (ex_cfg "pause") false false)
                (refusing_world [] (APIConnectionError "Conflict") 0) 0
                (ex_torrent "aa" "" 1000) St_init
              = (Raise (APIConnectionError "Conflict"),
                 mkSt {[ "aa" := mkIdle 1000 0 ]} [EvTrackers "aa"; EvPause "aa"]))
    by (vm_compute; reflexivity).
  apply (observation_survives_dispatch _ _ _ _ _ _ _ H).
Defined.

(** X19: a pass of the loop body that ends without exception writes
    exactly one audit line if the torrent is admitted and has a reason, in
    dry-run or not, and none otherwise. *)
Theorem one_audit_line_per_trigger self w now t s s' host :
  resolve_host w (t_hash t) = Ok host ->
  cycle_body self w now t s = (Ok tt, s') ->
  exists evs, trace s' = trace s ++ evs
    /\ audit_lines evs =
       if match_tags (tag_list t) (policy_for (self_cfg self) host)
          && list_truthy (evaluate (policy_for (self_cfg self) host) t now (idle s)).1
       then 1%nat else 0%nat.
Proof.
  intros Hh. rewrite cycle_body_spec, Hh. cbv zeta.
  destruct (match_tags _ _); simpl.
  - destruct (evaluate _ t now (idle s)) as [reasons state]. simpl.
    destruct (list_truthy reasons).
    + destruct (self_dry_run self) eqn:Hd.
      * rewrite apply_action_dry, step_to_log_to by done. intros [= <-].
        by eexists.
      * rewrite apply_action_live by done.
        destruct (dispatch_call _ _ _) as [[ev [[]|e]]|] eqn:Hc;
          rewrite step_to_log_to; intros [= <-]; eexists; (split; [done|]).
        -- apply dispatch_call_event in Hc as [[-> _]|[[-> _]|[-> _]]]; reflexivity.
        -- reflexivity.
    + intros [= <-]. by eexists.
  - intros [= <-]. by eexists.
Qed.

(** The statement at a torrent that is over the ratio, in dry-run. *)
Lemma one_audit_line_per_trigger_witness :
  exists evs,
    [EvTrackers "aa"; EvLogInfo "DRY-RUN: PAUSE | aa | linux.iso | - | ratio"] = [] ++ evs
    /\ audit_lines evs = 1%nat.
Proof.
  assert (H : cycle_body (Sentinel_init (ex_cfg "pause") false true)
                (quiet_world [] 0) 0 (ex_torrent "aa" "" 1000) St_init
              = (Ok tt,
                 mkSt {[ "aa" := mkIdle 1000 0 ]}
                   [EvTrackers "aa";
                    EvLogInfo "DRY-RUN: PAUSE | aa | linux.iso | - | ratio"]))
    by (vm_compute; reflexivity).
  apply (one_audit_line_per_trigger (Sentinel_init (ex_cfg "pause") false true)
           (quiet_world [] 0) 0 (ex_torrent "aa" "" 1000) St_init _ None eq_refl H).
Defined.
